(** * Hasura event / action dispatch of [packages/hasura/src/hasura.module.ts]

    A shallow embedding of the dispatch engine of the NestJS Hasura module:
    the two shape checks on incoming payloads, the two handler-table builds
    run by [onModuleInit], and the two dispatch closures [handleEvent] and
    [handleAction] that the builds install on the handler services.

    JavaScript values are an inductive type, objects are finite maps from
    property names to values, effects (logger calls, handler invocations,
    thrown exceptions) are threaded through a small writer/exception monad,
    and the promise returned by [Promise.all] is a state machine driven by
    the order in which the handlers' promises settle. *)

From Stdlib Require Import ZArith DecimalString.
From stdpp Require Import gmap strings list fin_maps.

Set Warnings "-register-all".
Local Open Scope string_scope.

(** ** JavaScript values *)

(** The values a parsed JSON body can hold, plus [undefined] for absent
    properties.  The module never computes with a number: it tests it for
    truthiness and prints it.  A number is therefore represented by [repr],
    the string that ToString (Number::toString) gives for it: ["0"] for
    both zeros, ["NaN"], ["1.5"], ["1e+21"], ... *)
Inductive JsVal : Type :=
| VUndefined
| VNull
| VBool (b : bool)
| VNum (repr : string)
| VStr (s : string)
| VArr (elems : list JsVal)
| VObj (fields : gmap string JsVal).

Abbreviation JsObj := (gmap string JsVal).

(** [typeof v] *)
Definition typeof (v : JsVal) : string :=
  match v with
  | VUndefined => "undefined"
  | VNull => "object"
  | VBool _ => "boolean"
  | VNum _ => "number"
  | VStr _ => "string"
  | VArr _ => "object"
  | VObj _ => "object"
  end.

(** ToBoolean: the truthiness tested by [&&], [||], [!] and [?:]. *)
Definition to_boolean (v : JsVal) : bool :=
  match v with
  | VUndefined | VNull => false
  | VBool b => b
  | VNum repr => negb (String.eqb repr "0" || String.eqb repr "NaN")
  | VStr s => negb (String.eqb s "")
  | VArr _ | VObj _ => true
  end.

(** [a && b] yields [a] when [a] is falsy and [b] otherwise. *)
Definition js_and (a b : JsVal) : JsVal := if to_boolean a then b else a.

(** Decimal notation of a natural number. *)
Definition N_to_string (n : N) : string :=
  NilZero.string_of_uint (N.to_uint n).

(** An array element as [Array.prototype.join] prints it. *)
Definition join_elem (to_s : JsVal -> string) (v : JsVal) : string :=
  match v with
  | VUndefined | VNull => ""
  | _ => to_s v
  end.

(** ToString, as applied by template literals. *)
Fixpoint to_string (v : JsVal) : string :=
  match v with
  | VUndefined => "undefined"
  | VNull => "null"
  | VBool true => "true"
  | VBool false => "false"
  | VNum repr => repr
  | VStr s => s
  | VArr l =>
      (fix join (l : list JsVal) : string :=
         match l with
         | [] => ""
         | [x] => join_elem to_string x
         | x :: r => join_elem to_string x +:+ "," +:+ join r
         end) l
  | VObj _ => "[object Object]"
  end.

(** [`${keys}`] for an array [keys]. *)
Definition array_to_string (l : list JsVal) : string := to_string (VArr l).

(** [o.k] on an object: own properties only; the property names read by the
    module are not defined on [Object.prototype]. *)
Definition get (o : JsObj) (k : string) : JsVal := default VUndefined (o !! k).

(** [v?.k]: [undefined] on a nullish receiver, the property otherwise.  The
    module reads only [name] and [schema] this way; of the built-in
    properties of arrays and strings only [length] is modelled. *)
Definition opt_get (v : JsVal) (k : string) : JsVal :=
  match v with
  | VObj o => get o k
  | VArr l =>
      if String.eqb k "length" then VNum (N_to_string (N.of_nat (length l)))
      else VUndefined
  | VStr s =>
      if String.eqb k "length" then VNum (N_to_string (N.of_nat (String.length s)))
      else VUndefined
  | _ => VUndefined
  end.

(** [keys.includes(key)] for a string [key]: SameValueZero holds only
    between a string element and an equal string. *)
Definition includes (keys : list JsVal) (key : string) : bool :=
  existsb (fun k => match k with VStr s => String.eqb s key | _ => false end) keys.

(** ** Exceptions, promises, effects *)

Inductive Exn : Type :=
| JsError (msg : string)              (* new Error(msg) *)
| BadRequestException (msg : string)  (* @nestjs/common *)
| Raised (v : JsVal).                 (* whatever a handler throws *)

(** What becomes of the promise an asynchronous call returns. *)
Inductive Outcome : Type :=
| Fulfils (v : JsVal)
| Rejects (e : Exn)
| NeverSettles.

Inductive Level : Type := LLog | LWarn | LError.

Inductive Instance : Type :=
| InstEventHandlerService
| InstActionHandlerService
| InstApp (cls : string).

(** Modelled from the spec: the interface HasuraAction of
    hasura.actions.interfaces.ts, "ActionInvocation { action: {name}, input,
    ...context }". *)
Record HasuraAction : Type := {
  action_name : string;          (* action.action.name *)
  input : JsVal;                 (* action.input *)
  session_variables : JsVal
}.

Abbreviation Headers := (gmap string string).

Inductive Effect : Type :=
| Logged (lvl : Level) (msg : string)
| InvokedEvent (inst : Instance) (methodName : string) (evt : JsObj)
| InvokedAction (inst : Instance) (methodName : string)
    (inp : JsVal) (action : HasuraAction) (headers : Headers).

(** A computation that logs, invokes handlers and may throw. *)
Definition M (A : Type) : Type := list Effect * (Exn + A).

Definition ret {A} (a : A) : M A := ([], inr a).
Definition throw {A} (e : Exn) : M A := ([], inl e).
Definition bind {A B} (m : M A) (f : A -> M B) : M B :=
  match m with
  | (es, inl e) => (es, inl e)
  | (es, inr a) => let '(es', r) := f a in ((es ++ es')%list, r)
  end.
Definition logger (lvl : Level) (msg : string) : M unit := ([Logged lvl msg], inr tt).

Notation "'let!' x ':=' c1 'in' c2" := (bind c1 (fun x => c2))
  (at level 10, x name, c1 at level 100, c2 at level 200).
Notation "'do!' c1 'in' c2" := (bind c1 (fun _ => c2))
  (at level 10, c1 at level 100, c2 at level 200).

(** [xs.map(f)] for an effectful callback: left to right, stopping at the
    first throw. *)
Fixpoint mapM {A B} (f : A -> M B) (xs : list A) : M (list B) :=
  match xs with
  | [] => ret []
  | x :: r => let! y := f x in let! ys := mapM f r in ret (y :: ys)
  end.

(** An [async] function: a throw in the body rejects the returned promise. *)
Definition async (body : M Outcome) : list Effect * Outcome :=
  match body with
  | (es, inl e) => (es, Rejects e)
  | (es, inr o) => (es, o)
  end.

(** The invocations among a list of effects. *)
Definition is_invocation (e : Effect) : bool :=
  match e with Logged _ _ => false | _ => true end.
Definition invocations (es : list Effect) : list Effect := filter is_invocation es.

(** ** [Promise.all] *)

Inductive PromiseState : Type :=
| Pending
| Fulfilled (v : JsVal)
| Rejected (e : Exn).

(** Resolving or rejecting a promise that is already settled does nothing. *)
Definition settle (st new : PromiseState) : PromiseState :=
  match st with Pending => new | _ => st end.

Record AllState : Type := {
  values : list JsVal;
  remaining : nat;
  result : PromiseState
}.

Definition all_init (n : nat) : AllState :=
  {| values := replicate n VUndefined;
     remaining := n;
     result := if (n =? 0)%nat then Fulfilled (VArr []) else Pending |}.

(** The reaction of [Promise.all] when its [i]-th input settles. *)
Definition all_step (st : AllState) (i : nat) (o : Outcome) : AllState :=
  match o with
  | Fulfils v =>
      let vals := <[i := v]> (values st) in
      let rem := pred (remaining st) in
      {| values := vals;
         remaining := rem;
         result := if (rem =? 0)%nat then settle (result st) (Fulfilled (VArr vals))
                   else result st |}
  | Rejects e =>
      {| values := values st;
         remaining := remaining st;
         result := settle (result st) (Rejected e) |}
  | NeverSettles => st
  end.

(** [sched] lists the inputs in the order in which they settle. *)
Definition all_run (ps : list Outcome) (sched : list nat) : AllState :=
  foldl (fun st i => match ps !! i with
                     | Some o => all_step st i o
                     | None => st
                     end)
        (all_init (length ps)) sched.

(** State of [Promise.all(ps)] once the inputs listed in [sched] have
    settled, in that order. *)
Definition Promise_all (ps : list Outcome) (sched : list nat) : PromiseState :=
  result (all_run ps sched).

Definition settles (o : Outcome) : bool :=
  match o with NeverSettles => false | _ => true end.

(** A schedule settles each input at most once, and only inputs that do
    settle. *)
Definition valid_schedule (ps : list Outcome) (sched : list nat) : Prop :=
  NoDup sched /\ forall i, In i sched -> exists o, ps !! i = Some o /\ settles o = true.

(** ** lodash helpers *)

(** [groupBy(xs, f)]: the object lodash builds, as its properties in
    creation order: a property per key in order of first appearance, holding
    the elements of that key in their original order. *)
Fixpoint group_insert {A} (k : string) (x : A) (gs : list (string * list A))
  : list (string * list A) :=
  match gs with
  | [] => [(k, [x])]
  | (k', xs) :: r =>
      if String.eqb k' k then (k', (xs ++ [x])%list) :: r
      else (k', xs) :: group_insert k x r
  end.

Definition groupBy {A} (f : A -> string) (xs : list A) : list (string * list A) :=
  foldl (fun gs x => group_insert (f x) x gs) [] xs.

Definition flatten {A} (xss : list (list A)) : list A := concat xss.

(** ** Property order of objects *)

Definition digit_of (c : Ascii.ascii) : option N :=
  let n := Ascii.N_of_ascii c in
  if (48 <=? n)%N && (n <=? 57)%N then Some (n - 48)%N else None.

Fixpoint parse_digits (s : string) (acc : N) : option N :=
  match s with
  | EmptyString => Some acc
  | String c r =>
      match digit_of c with
      | Some d => parse_digits r (acc * 10 + d)%N
      | None => None
      end
  end.

(** The array index a property name denotes: the name is the decimal
    notation, without sign or leading zeros, of a number below 2^32 - 1. *)
Definition array_index (s : string) : option N :=
  match s with
  | EmptyString => None
  | _ =>
      match parse_digits s 0%N with
      | Some n =>
          if (n <? 4294967295)%N && String.eqb (N_to_string n) s then Some n
          else None
      | None => None
      end
  end.

Fixpoint insert_by_index {A} (n : N) (x : A) (l : list (N * A)) : list (N * A) :=
  match l with
  | [] => [(n, x)]
  | (m, y) :: r =>
      if (n <? m)%N then (n, x) :: (m, y) :: r
      else (m, y) :: insert_by_index n x r
  end.

Definition sort_by_index {A} (l : list (N * A)) : list (N * A) :=
  foldr (fun e acc => insert_by_index e.1 e.2 acc) [] l.

(** The order in which the own properties of an object are enumerated:
    those named by an array index first, by ascending index, then the others
    in order of creation.  [l] lists the properties in creation order and
    [name] gives the name of each. *)
Definition index_first {A} (name : A -> string) (l : list A) : list A :=
  (map snd (sort_by_index (omap (fun x => n ← array_index (name x); Some (n, x)) l))
   ++ filter (fun x => array_index (name x) = None) l)%list.

(** [Object.keys(o).map(x => f(x, o[x]))] ranges over these entries. *)
Definition Object_entries {V} (o : list (string * V)) : list (string * V) :=
  index_first fst o.

(** ** Discovery *)

(** Modelled from the spec: the discovery interface of
    @golevelup/nestjs-discovery, "providers(predicate) -> sequence of {name,
    instance}" and "providerMethodsWithMetaAtKey<T>(key) -> sequence of
    {discoveredMethod, meta: T}", a pure query over the component registry. *)
Record Provider : Type := {
  prov_name : string;
  prov_instance : Instance
}.

Record DiscoveredClass : Type := {
  class_name : string;
  class_instance : Instance
}.

Record DiscoveredMethod (F : Type) : Type := {
  handler : F;
  methodName : string;
  parentClass : DiscoveredClass
}.
Arguments handler {F} _.
Arguments methodName {F} _.
Arguments parentClass {F} _.

Record DiscoveredMethodWithMeta (F T : Type) : Type := {
  discoveredMethod : DiscoveredMethod F;
  meta : T
}.
Arguments discoveredMethod {F T} _.
Arguments meta {F T} _.

(** Modelled from the spec: the interface HasuraEventHandlerConfig of
    hasura.events.interfaces.ts, "triggerName?: string" and
    "table?: { schema?: string; name: string }". *)
Record TableRef : Type := {
  schema : option string;
  table_name : string
}.

Record HasuraEventHandlerConfig : Type := {
  table : option TableRef;
  triggerName : option string
}.

(** Modelled from the spec: the option "enableEventLogs: boolean (default
    false)" of HasuraModuleConfig. *)
Record HasuraModuleConfig : Type := {
  enableEventLogs : bool
}.

(** The application's handler methods: an event handler takes the event, an
    action handler takes [(input, action, headers)]; both are asynchronous. *)
Definition EventFn : Type := JsObj -> Outcome.
Definition ActionFn : Type := JsVal -> HasuraAction -> Headers -> Outcome.

(** The query side of [DiscoveryService]: the registered providers and,
    for each of the two metadata keys, the methods carrying it, in discovery
    order. *)
Record DiscoveryService : Type := {
  all_providers : list Provider;
  event_methods : list (DiscoveredMethodWithMeta EventFn HasuraEventHandlerConfig);
  action_methods : list (DiscoveredMethodWithMeta ActionFn string)
}.

(** [discover.providers(pred)] *)
Definition providers (d : DiscoveryService) (pred : Provider -> bool) : list Provider :=
  filter pred (all_providers d).

(** Modelled from the spec: the invoker binding interface, "given an owning
    instance, a raw method reference, and a method name, produces a ...
    callable with the owning instance's execution context bound".  The
    callable [externalContextCreator.create(instance, callback, methodName)]
    is asynchronous: invoking it returns a promise and never throws. *)
Record ExternalHandler (F : Type) : Type := {
  eh_instance : Instance;
  eh_callback : F;
  eh_methodName : string
}.
Arguments eh_instance {F} _.
Arguments eh_callback {F} _.
Arguments eh_methodName {F} _.

Definition create {F} (instance : Instance) (callback : F) (name : string)
  : ExternalHandler F :=
  {| eh_instance := instance; eh_callback := callback; eh_methodName := name |}.

(** Truthiness of an optional string: present and not empty. *)
Definition truthy_str (o : option string) : bool :=
  match o with
  | Some s => negb (String.eqb s "")
  | None => false
  end.

(** ** Shape checks *)

Definition isHasuraEvent (value : JsObj) : JsVal :=
  js_and (js_and (get value "id")
                 (VBool (String.eqb (typeof (get value "table")) "object")))
         (VBool (String.eqb (typeof (get value "trigger")) "object")).

Definition isHasuraScheduledEventPayload (value : JsObj) : JsVal :=
  js_and (js_and (js_and (get value "id") (get value "name"))
                 (get value "scheduled_time"))
         (VBool (String.eqb (typeof (get value "payload")) "object")).

(** ** Action handlers *)

Definition ActionHandler : Type := ExternalHandler ActionFn.

Definition invoke_action (h : ActionHandler) (inp : JsVal) (action : HasuraAction)
    (headers : Headers) : M Outcome :=
  ([InvokedAction (eh_instance h) (eh_methodName h) inp action headers],
   inr (eh_callback h inp action headers)).

(** [new Map(entries)]: the entries are set from first to last. *)
Definition new_Map {V} (entries : list (string * V)) : gmap string V :=
  foldl (fun m e => <[e.1 := e.2]> m) ∅ entries.

Definition handleAction (actionHandlerMap : gmap string ActionHandler)
    (action : HasuraAction) (headers : Headers) : list Effect * Outcome :=
  async (
    match actionHandlerMap !! action_name action with
    | None =>
        let errorMessage := "Handler not found for action: " +:+ action_name action in
        do! logger LError errorMessage in
        throw (BadRequestException errorMessage)
    | Some handler => invoke_action handler (input action) action headers
    end).

(** The first provider named [service_name], checked against the expected
    service class. *)
Definition find_service (d : DiscoveryService) (service_name : string)
    (is_expected : Instance -> bool) : M unit :=
  match map prov_instance (providers d (fun x => String.eqb (prov_name x) service_name)) with
  | inst :: _ =>
      if is_expected inst then ret tt
      else throw (JsError "Could not find Hasura Event Handler Service.")
  | [] => throw (JsError "Could not find Hasura Event Handler Service.")
  end.

(** Builds the action table; the result is the map captured by the
    [handleAction] closure that is installed on the service. *)
Definition configureHasuraActionHandlers (d : DiscoveryService)
  : M (gmap string ActionHandler) :=
  do! logger LLog "Connecting Hasura Action Handlers" in
  do! find_service d "ActionHandlerService"
        (fun i => match i with InstActionHandlerService => true | _ => false end) in
  let actionHandlerNames := action_methods d in
  let grouped := groupBy (fun x => class_name (parentClass (discoveredMethod x)))
                         actionHandlerNames in
  let! per_class :=
    mapM (fun '(x, members) =>
            do! logger LLog ("Registering hasura action handlers from " +:+ x) in
            mapM (fun m =>
                    let dm := discoveredMethod m in
                    let actionName := meta m in
                    do! logger LLog ("Action '" +:+ actionName +:+ "' -> " +:+ x +:+ "."
                                     +:+ methodName dm) in
                    ret (actionName,
                         create (class_instance (parentClass dm)) (handler dm)
                                (methodName dm)))
                 members)
         (Object_entries grouped) in
  let actionHandlers := flatten per_class in
  ret (new_Map actionHandlers).

(** ** Event handlers *)

Record EventHandlerEntry : Type := {
  key : string;
  entry_handler : ExternalHandler EventFn
}.

(** The routing key of a binding, the [const key] of the build:
    [config.triggerName || `${schema ? schema : 'public'}-${name}`]. *)
Definition binding_key (config : HasuraEventHandlerConfig) : string :=
  if truthy_str (triggerName config) then default "" (triggerName config)
  else
    (if truthy_str (t ← table config; schema t)
     then default "" (t ← table config; schema t)
     else "public")
    +:+ "-" +:+
    match table config with
    | Some t => table_name t
    | None => "undefined"
    end.

(** The callback the build maps over the bindings of class [x]. *)
Definition register_event_handler (x : string)
    (m : DiscoveredMethodWithMeta EventFn HasuraEventHandlerConfig)
  : M EventHandlerEntry :=
  let dm := discoveredMethod m in
  let config := meta m in
  do! (if negb (bool_decide (is_Some (table config))) && negb (truthy_str (triggerName config))
       then throw (JsError "Hasura Event Handler is invalid. Specify either trigger name or table mapping")
       else ret tt) in
  do! (if bool_decide (is_Some (table config))
       then logger LWarn ("Event binding based on schema and table is deprecated and will be removed in a future release. Consider replacing the binding on "
                          +:+ methodName dm +:+ " with triggerName")
       else ret tt) in
  do! (if bool_decide (is_Some (table config)) && truthy_str (triggerName config)
       then logger LWarn ("Both table and trigger bindings are set for "
                          +:+ methodName dm
                          +:+ ". This is not recommended and will cause duplicate message processing")
       else ret tt) in
  ret {| key := binding_key config;
         entry_handler := create (class_instance (parentClass dm)) (handler dm)
                                 (methodName dm) |}.

(** Builds the event table; the result is the list captured by the
    [handleEvent] closure that is installed on the service. *)
Definition configureHasuraEventHandlers (d : DiscoveryService)
  : M (list EventHandlerEntry) :=
  do! logger LLog "Connecting Hasura Events" in
  do! find_service d "EventHandlerService"
        (fun i => match i with InstEventHandlerService => true | _ => false end) in
  let eventHandlerMeta := event_methods d in
  let grouped := groupBy (fun x => class_name (parentClass (discoveredMethod x)))
                         eventHandlerMeta in
  let! per_class :=
    mapM (fun '(x, members) =>
            do! logger LLog ("Registering hasura event handlers from " +:+ x) in
            mapM (register_event_handler x) members)
         (Object_entries grouped) in
  ret (flatten per_class).

Definition invoke_event (x : EventHandlerEntry) (evt : JsObj) : M Outcome :=
  ([InvokedEvent (eh_instance (entry_handler x)) (eh_methodName (entry_handler x)) evt],
   inr (eh_callback (entry_handler x) evt)).

(** The [keys] of [handleEvent]; [None] is its [null]. *)
Definition event_keys (evt : JsObj) : option (list JsVal) :=
  if to_boolean (isHasuraEvent evt) then
    Some [opt_get (get evt "trigger") "name";
          VStr (to_string (opt_get (get evt "table") "schema") +:+ "-"
                +:+ to_string (opt_get (get evt "table") "name"))]
  else if to_boolean (isHasuraScheduledEventPayload evt) then
    Some [get evt "name"]
  else None.

(** The bindings an event with candidate keys [keys] is routed to. *)
Definition matching (eventHandlers : list EventHandlerEntry) (keys : list JsVal)
  : list EventHandlerEntry :=
  filter (fun x => includes keys (key x)) eventHandlers.

(** [handleEvent] throws synchronously or returns [Promise.all] of the
    promises listed in its result. *)
Definition handleEvent (config : HasuraModuleConfig)
    (eventHandlers : list EventHandlerEntry) (evt : JsObj) : M (list Outcome) :=
  match event_keys evt with
  | None => throw (JsError "Not a Hasura Event")
  | Some keys =>
      let handlers := matching eventHandlers keys in
      do! (if enableEventLogs config
           then logger LLog ("Received event for: " +:+ array_to_string keys)
           else ret tt) in
      if negb (length handlers =? 0)%nat then
        mapM (fun x => invoke_event x evt) handlers
      else
        let errorMessage := "Handler not found for " +:+ array_to_string keys in
        do! logger LError errorMessage in
        throw (BadRequestException errorMessage)
  end.

(** ** Module initialisation *)

(** The closures installed on the two services once initialisation is over. *)
Record Installed : Type := {
  eventHandlers_of : list EventHandlerEntry;
  actionHandlerMap_of : gmap string ActionHandler
}.

Definition onModuleInit (d : DiscoveryService) : M Installed :=
  do! logger LLog "Initializing Hasura Module" in
  let! evs := configureHasuraEventHandlers d in
  let! acts := configureHasuraActionHandlers d in
  ret {| eventHandlers_of := evs; actionHandlerMap_of := acts |}.

(** ** Notions used in the statements *)

Definition invalid_binding : Exn :=
  JsError "Hasura Event Handler is invalid. Specify either trigger name or table mapping".

Definition service_missing : Exn :=
  JsError "Could not find Hasura Event Handler Service.".

Definition is_event_service (i : Instance) : bool :=
  match i with InstEventHandlerService => true | _ => false end.

(** The optional observability record of [handleEvent]. *)
Definition event_log (config : HasuraModuleConfig) (keys : list JsVal) : list Effect :=
  if enableEventLogs config
  then [Logged LLog ("Received event for: " +:+ array_to_string keys)]
  else [].

Definition invocation_of (evt : JsObj) (x : EventHandlerEntry) : Effect :=
  InvokedEvent (eh_instance (entry_handler x)) (eh_methodName (entry_handler x)) evt.

Definition promise_of (evt : JsObj) (x : EventHandlerEntry) : Outcome :=
  eh_callback (entry_handler x) evt.

(** The two shape checks, spelled out on the payload's properties. *)
Definition table_event_shape (evt : JsObj) : bool :=
  to_boolean (get evt "id")
  && String.eqb (typeof (get evt "table")) "object"
  && String.eqb (typeof (get evt "trigger")) "object".

Definition scheduled_event_shape (evt : JsObj) : bool :=
  to_boolean (get evt "id")
  && to_boolean (get evt "name")
  && to_boolean (get evt "scheduled_time")
  && String.eqb (typeof (get evt "payload")) "object".

Definition is_action_service (i : Instance) : bool :=
  match i with InstActionHandlerService => true | _ => false end.

Definition action_entry (m : DiscoveredMethodWithMeta ActionFn string)
  : string * ActionHandler :=
  (meta m,
   create (class_instance (parentClass (discoveredMethod m)))
          (handler (discoveredMethod m)) (methodName (discoveredMethod m))).

(** The [actionHandlers] array of the build: one entry per discovered
    method, class by class. *)
Definition action_entries (d : DiscoveryService) : list (string * ActionHandler) :=
  flatten (map (fun g => map action_entry g.2)
               (Object_entries
                  (groupBy (fun x => class_name (parentClass (discoveredMethod x)))
                           (action_methods d)))).

Definition rejects (o : Outcome) : bool :=
  match o with Rejects _ => true | _ => false end.

(** The claim of C2 on the promises of one dispatch: whenever
    [Promise.all] has rejected, every input has already settled. *)
Definition rejects_only_after_all_settled (ps : list Outcome) : Prop :=
  forall sched e,
    valid_schedule ps sched ->
    Promise_all ps sched = Rejected e ->
    forall i, i < length ps -> In i sched.





(** The members of all groups, group after group. *)
Definition members {A} (gs : list (string * list A)) : list A :=
  flatten (map snd gs).

(** Distinct group keys, and every member filed under its own key. *)
Definition well_grouped {A} (f : A -> string) (gs : list (string * list A)) : Prop :=
  NoDup (map fst gs)
  /\ forall k g y, In (k, g) gs -> In y g -> f y = k.

(** The entry the event build creates for a discovered method. *)
Definition event_entry (m : DiscoveredMethodWithMeta EventFn HasuraEventHandlerConfig)
  : EventHandlerEntry :=
  {| key := binding_key (meta m);
     entry_handler := create (class_instance (parentClass (discoveredMethod m)))
                             (handler (discoveredMethod m))
                             (methodName (discoveredMethod m)) |}.

(** The [eventHandlers] array of a successful build: one entry per
    discovered method, class by class. *)
Definition event_entries (d : DiscoveryService) : list EventHandlerEntry :=
  flatten (map (fun g => map event_entry g.2)
               (Object_entries
                  (groupBy (fun x => class_name (parentClass (discoveredMethod x)))
                           (event_methods d)))).

(** ** Sample application *)

Definition sample_providers : list Provider :=
  [ {| prov_name := "EventHandlerService"; prov_instance := InstEventHandlerService |};
    {| prov_name := "ActionHandlerService"; prov_instance := InstActionHandlerService |} ].

Definition event_method (cls meth : string) (fn : EventFn)
    (c : HasuraEventHandlerConfig)
  : DiscoveredMethodWithMeta EventFn HasuraEventHandlerConfig :=
  {| discoveredMethod :=
       {| handler := fn; methodName := meth;
          parentClass := {| class_name := cls; class_instance := InstApp cls |} |};
     meta := c |}.

Definition action_method (cls meth : string) (fn : ActionFn) (actionName : string)
  : DiscoveredMethodWithMeta ActionFn string :=
  {| discoveredMethod :=
       {| handler := fn; methodName := meth;
          parentClass := {| class_name := cls; class_instance := InstApp cls |} |};
     meta := actionName |}.

Definition by_trigger (t : string) : HasuraEventHandlerConfig :=
  {| table := None; triggerName := Some t |}.
Definition by_table (s : option string) (n : string) : HasuraEventHandlerConfig :=
  {| table := Some {| schema := s; table_name := n |}; triggerName := None |}.
Definition by_both (t : string) (s : option string) (n : string)
  : HasuraEventHandlerConfig :=
  {| table := Some {| schema := s; table_name := n |}; triggerName := Some t |}.
Definition unbound : HasuraEventHandlerConfig :=
  {| table := None; triggerName := None |}.

Definition fulfilling (v : string) : EventFn := fun _ => Fulfils (VStr v).
Definition rejecting (v : string) : EventFn := fun _ => Rejects (Raised (VStr v)).

(** A table event as Hasura posts it. *)
Definition table_event (id trigger sch name : string) : JsObj :=
  {[ "id" := VStr id;
     "table" := VObj {[ "schema" := VStr sch; "name" := VStr name ]};
     "trigger" := VObj {[ "name" := VStr trigger ]} ]}.

Definition discovery_of
    (evs : list (DiscoveredMethodWithMeta EventFn HasuraEventHandlerConfig))
    (acts : list (DiscoveredMethodWithMeta ActionFn string)) : DiscoveryService :=
  {| all_providers := sample_providers; event_methods := evs; action_methods := acts |}.

Definition quiet : HasuraModuleConfig := {| enableEventLogs := false |}.

Definition scheduled_event (id name : string) : JsObj :=
  {[ "id" := VStr id;
     "name" := VStr name;
     "scheduled_time" := VStr "2020-06-10T00:00:00Z";
     "payload" := VObj ∅ ]}.

Definition entry_of (k cls meth : string) (fn : EventFn) : EventHandlerEntry :=
  {| key := k; entry_handler := create (InstApp cls) fn meth |}.

(** One handler bound to both a trigger and a table. *)
Definition dual_discovery : DiscoveryService :=
  discovery_of
    [event_method "UserService" "onUser" (fulfilling "done")
       (by_both "user_created" (Some "public") "user")] [].

(** Two handlers on one trigger; the first fails, the second succeeds. *)
Definition fan_out_table : list EventHandlerEntry :=
  [entry_of "user_created" "MailService" "sendWelcome" (rejecting "smtp down");
   entry_of "user_created" "AuditService" "record" (fulfilling "recorded")].

Definition fan_out_promises : list Outcome :=
  [Rejects (Raised (VStr "smtp down")); Fulfils (VStr "recorded")].

Definition createUser_action : HasuraAction :=
  {| action_name := "createUser"; input := VObj ∅; session_variables := VObj ∅ |}.

Definition duplicate_actions : DiscoveryService :=
  discovery_of []
    [action_method "UserService" "create" (fun _ _ _ => Fulfils (VStr "first")) "createUser";
     action_method "AdminService" "create" (fun _ _ _ => Fulfils (VStr "second")) "createUser"].

(** ** Further notions *)

(** A binding the event build accepts: it names a table or a non-empty
    trigger. *)
Definition valid_binding (c : HasuraEventHandlerConfig) : bool :=
  bool_decide (is_Some (table c)) || truthy_str (triggerName c).

(** Effects that are logger calls only. *)
Definition logs_only (es : list Effect) : Prop :=
  Forall (fun e => is_invocation e = false) es.

Definition class_of {F T} (m : DiscoveredMethodWithMeta F T) : string :=
  class_name (parentClass (discoveredMethod m)).

Definition deprecation_warning (meth : string) : Effect :=
  Logged LWarn ("Event binding based on schema and table is deprecated and will be removed in a future release. Consider replacing the binding on "
                +:+ meth +:+ " with triggerName").

Definition dual_binding_warning (meth : string) : Effect :=
  Logged LWarn ("Both table and trigger bindings are set for " +:+ meth
                +:+ ". This is not recommended and will cause duplicate message processing").

Definition is_warning (e : Effect) : bool :=
  match e with Logged LWarn _ => true | _ => false end.

(** The distinct names of a list, in order of first occurrence. *)
Fixpoint first_seen (ks : list string) : list string :=
  match ks with
  | [] => []
  | k :: r => k :: filter (fun k' => k' <> k) (first_seen r)
  end.

(** The order in which a build registers the discovered methods: class by
    class, the classes as [Object.keys] enumerates the names first seen in
    the discovery (array-index names first, ascending, then the other names
    in order of first discovery), and the methods of one class in discovery
    order. *)
Definition registration_order {F T} (xs : list (DiscoveredMethodWithMeta F T))
  : list (DiscoveredMethodWithMeta F T) :=
  flat_map (fun c => filter (fun m => class_of m = c) xs)
           (index_first id (first_seen (map class_of xs))).

(** ** The controller path *)

(** [Reflect] metadata: values filed under a metadata key and a target. *)
Abbreviation Metadata := (gmap (string * string) string).

(** The constant of @nestjs/common/constants. *)
Definition PATH_METADATA : string := "path".

(** [Reflect.defineMetadata(metadataKey, value, target)] *)
Definition defineMetadata (metadataKey value target : string) (md : Metadata)
  : Metadata :=
  <[(metadataKey, target) := value]> md.

(** The [useFactory] of the CONTROLLER_HACK provider, on the
    [controllerPrefix] option of the module configuration. *)
Definition controller_hack (controllerPrefix : option string) (md : Metadata)
  : Metadata :=
  let prefix := if truthy_str controllerPrefix then default "" controllerPrefix
                else "hasura" in
  defineMetadata PATH_METADATA prefix "HasuraRouterController" md.

(** ** Further sample data *)


Definition cron_table : list EventHandlerEntry :=
  [entry_of "nightly" "CronService" "run" (fulfilling "ran")].



Definition both_fulfil_table : list EventHandlerEntry :=
  [entry_of "user_created" "MailService" "sendWelcome" (fulfilling "mailed");
   entry_of "user_created" "AuditService" "record" (fulfilling "recorded")].

Definition one_hangs_table : list EventHandlerEntry :=
  [entry_of "user_created" "MailService" "sendWelcome" (fulfilling "mailed");
   entry_of "user_created" "AuditService" "record" (fun _ => NeverSettles)].

Definition interleaved_discovery : DiscoveryService :=
  discovery_of
    [event_method "UserService" "first" (fulfilling "1") (by_trigger "a");
     event_method "OrderService" "second" (fulfilling "2") (by_table None "order");
     event_method "UserService" "third" (fulfilling "3") (by_trigger "c")] [].

Definition no_services : DiscoveryService :=
  {| all_providers := []; event_methods := []; action_methods := [] |}.

(** ** Order of registration: notions and sample data *)




(** * Properties *)

(** ** The monad *)

Lemma bind_ret_l {A B} (a : A) (f : A -> M B) : bind (ret a) f = f a.
Proof. unfold bind, ret. destruct (f a) as [es r]. reflexivity. Qed.

Lemma bind_throw {A B} (es : list Effect) (e : Exn) (f : A -> M B) :
  bind (es, inl e) f = (es, inl e).
Proof. reflexivity. Qed.

Lemma bind_value {A B} (es : list Effect) (a : A) (f : A -> M B) :
  bind (es, inr a) f = ((es ++ (f a).1)%list, (f a).2).
Proof. unfold bind. destruct (f a) as [es' r]. reflexivity. Qed.

(** A callback that never throws is mapped over the whole array; its
    effects come out in array order. *)
Lemma mapM_total {A B} (f : A -> M B) (g : A -> list Effect) (h : A -> B) xs :
  (forall x, In x xs -> f x = (g x, inr (h x))) ->
  mapM f xs = (concat (map g xs), inr (map h xs)).
Proof.
  induction xs as [|x r IH]; intros Hf; simpl; [reflexivity|].
  rewrite (Hf x) by (left; reflexivity).
  rewrite bind_value, IH by (intros y Hy; apply Hf; right; exact Hy).
  simpl. rewrite app_nil_r. reflexivity.
Qed.

(** If the callback throws on some element, and every throw of the callback
    is the exception [e], then the whole [map] throws [e]. *)
Lemma mapM_throws {A B} (f : A -> M B) (e : Exn) xs x :
  In x xs ->
  (exists es, f x = (es, inl e)) ->
  (forall y es e', f y = (es, inl e') -> e' = e) ->
  exists es, mapM f xs = (es, inl e).
Proof.
  intros Hin Hx Hall. induction xs as [|y r IH]; [destruct Hin|].
  simpl. destruct (f y) as [es [e'|b]] eqn:Hy.
  - exists es. rewrite (Hall _ _ _ Hy). reflexivity.
  - destruct Hin as [->|Hin].
    + destruct Hx as [es' Hx]. rewrite Hx in Hy. discriminate.
    + destruct (IH Hin) as [es' IH']. rewrite bind_value, IH'. simpl.
      eexists. reflexivity.
Qed.

(** ** [groupBy] *)

Lemma group_insert_In {A} (k : string) (x y : A) gs :
  (exists k' g, In (k', g) gs /\ In y g) ->
  exists k' g, In (k', g) (group_insert k x gs) /\ In y g.
Proof.
  induction gs as [|[k0 g0] r IH]; intros (k' & g & Hin & Hy); [destruct Hin|].
  simpl. destruct (String.eqb k0 k).
  - destruct Hin as [Heq|Hin].
    + inversion Heq; subst. exists k', (g ++ [x])%list. split; [left; reflexivity|].
      apply in_or_app. left. exact Hy.
    + exists k', g. split; [right; exact Hin|exact Hy].
  - destruct Hin as [Heq|Hin].
    + exists k', g. split; [left; exact Heq|exact Hy].
    + destruct IH as (k1 & g1 & H1 & H2); [exists k', g; split; assumption|].
      exists k1, g1. split; [right; exact H1|exact H2].
Qed.

Lemma group_insert_new {A} (k : string) (x : A) gs :
  exists k' g, In (k', g) (group_insert k x gs) /\ In x g.
Proof.
  induction gs as [|[k0 g0] r IH]; simpl.
  - exists k, [x]. split; left; reflexivity.
  - destruct (String.eqb k0 k).
    + exists k0, (g0 ++ [x])%list. split; [left; reflexivity|].
      apply in_or_app. right. left. reflexivity.
    + destruct IH as (k1 & g1 & H1 & H2). exists k1, g1.
      split; [right; exact H1|exact H2].
Qed.

(** No discovered method is lost by the grouping. *)
Lemma groupBy_In {A} (f : A -> string) (xs : list A) (x : A) :
  In x xs -> exists k g, In (k, g) (groupBy f xs) /\ In x g.
Proof.
  unfold groupBy.
  assert (Hgen : forall gs,
    In x xs \/ (exists k g, In (k, g) gs /\ In x g) ->
    exists k g, In (k, g) (foldl (fun gs x => group_insert (f x) x gs) gs xs) /\ In x g).
  { induction xs as [|y r IH]; intros gs [Hin|Hold]; simpl.
    - destruct Hin.
    - exact Hold.
    - destruct Hin as [->|Hin].
      + apply IH. right. apply group_insert_new.
      + apply IH. left. exact Hin.
    - apply IH. right. apply group_insert_In. exact Hold. }
  intros Hin. apply Hgen. left. exact Hin.
Qed.

(** ** Enumeration order *)

Lemma insert_by_index_perm {A} (n : N) (x : A) l :
  Permutation (insert_by_index n x l) ((n, x) :: l).
Proof.
  induction l as [|[m y] r IH]; simpl; [reflexivity|].
  destruct (n <? m)%N; [reflexivity|].
  rewrite IH. apply perm_swap.
Qed.

Lemma sort_by_index_perm {A} (l : list (N * A)) :
  Permutation (sort_by_index l) l.
Proof.
  induction l as [|[n x] r IH]; simpl; [reflexivity|].
  rewrite insert_by_index_perm, IH. reflexivity.
Qed.

(** Enumerating the properties of an object neither loses nor repeats one. *)
Lemma index_first_perm {A} (name : A -> string) (l : list A) :
  Permutation (index_first name l) l.
Proof.
  unfold index_first. rewrite sort_by_index_perm.
  induction l as [|x r IH]; simpl; [reflexivity|].
  destruct (array_index (name x)) as [n|] eqn:Hx; simpl.
  - rewrite filter_cons_False by (rewrite Hx; discriminate).
    apply perm_skip. exact IH.
  - rewrite filter_cons_True by exact Hx.
    rewrite <- Permutation_middle. apply perm_skip. exact IH.
Qed.

Lemma Object_entries_In {V} (o : list (string * V)) e :
  In e (Object_entries o) <-> In e o.
Proof.
  split; apply Permutation_in; [|symmetry]; apply index_first_perm.
Qed.

(** Every element is in one of the groups the builds go through. *)
Lemma grouped_In {A} (f : A -> string) (xs : list A) (x : A) :
  In x xs -> exists k g, In (k, g) (Object_entries (groupBy f xs)) /\ In x g.
Proof.
  intros Hx. destruct (groupBy_In f xs x Hx) as (k & g & Hg & Hxg).
  exists k, g. split; [apply Object_entries_In; exact Hg|exact Hxg].
Qed.

(** ** The event handler-table build *)

Lemma find_service_cases d n p :
  find_service d n p = ret tt \/ find_service d n p = throw service_missing.
Proof.
  unfold find_service.
  destruct (map prov_instance _) as [|i r]; [right; reflexivity|].
  destruct (p i); [left|right]; reflexivity.
Qed.

(** The only exception [register_event_handler] throws is [invalid_binding]. *)
Lemma register_event_handler_throws x m es e :
  register_event_handler x m = (es, inl e) -> e = invalid_binding.
Proof.
  unfold register_event_handler.
  destruct (negb (bool_decide (is_Some (table (meta m))))
            && negb (truthy_str (triggerName (meta m)))).
  - simpl. intros [= _ <-]. reflexivity.
  - rewrite bind_ret_l.
    destruct (bool_decide (is_Some (table (meta m))));
      destruct (truthy_str (triggerName (meta m))); simpl; discriminate.
Qed.

Lemma register_event_handler_invalid x m :
  table (meta m) = None -> truthy_str (triggerName (meta m)) = false ->
  register_event_handler x m = ([], inl invalid_binding).
Proof.
  intros Ht Hn. unfold register_event_handler. rewrite Ht, Hn. reflexivity.
Qed.

(** On a binding that names a table or a non-empty trigger the registration
    succeeds; it only logs. *)
Lemma register_event_handler_valid x m :
  (is_Some (table (meta m)) \/ truthy_str (triggerName (meta m)) = true) ->
  exists es,
    register_event_handler x m =
      (es, inr {| key := binding_key (meta m);
                  entry_handler := create (class_instance (parentClass (discoveredMethod m)))
                                          (handler (discoveredMethod m))
                                          (methodName (discoveredMethod m)) |})
    /\ invocations es = [].
Proof.
  intros Hv. unfold register_event_handler.
  destruct (table (meta m)) as [t|] eqn:Ht.
  - rewrite bool_decide_eq_true_2 by eauto. simpl.
    destruct (truthy_str (triggerName (meta m))); simpl; eexists; split; reflexivity.
  - destruct Hv as [[t' Hv]|Hv]; [discriminate|].
    rewrite Hv, bool_decide_eq_false_2 by (intros [t' Ht']; discriminate).
    simpl. eexists; split; reflexivity.
Qed.

(** C5: a discovered event-handler binding with neither [table] nor
    [triggerName] set makes the event handler-table build throw, and with it
    [onModuleInit]: initialisation is aborted and no dispatch closure is
    installed.  When the event handler service is found the exception is the
    "Hasura Event Handler is invalid" error.  A [triggerName] that is the
    empty string counts as not set, as the source tests it with [!]. *)
Theorem C5_unbound_binding_aborts_init (d : DiscoveryService) m :
  In m (event_methods d) ->
  table (meta m) = None ->
  truthy_str (triggerName (meta m)) = false ->
  exists es e,
    configureHasuraEventHandlers d = (es, inl e)
    /\ onModuleInit d = (Logged LLog "Initializing Hasura Module" :: es, inl e)
    /\ (find_service d "EventHandlerService" is_event_service = ret tt ->
        e = invalid_binding).
Proof.
  intros Hin Ht Hn.
  assert (Hbuild : exists es e,
    configureHasuraEventHandlers d = (es, inl e)
    /\ (find_service d "EventHandlerService" is_event_service = ret tt ->
        e = invalid_binding)).
  { unfold configureHasuraEventHandlers. fold is_event_service.
    destruct (find_service_cases d "EventHandlerService" is_event_service) as [Hs|Hs];
      rewrite Hs.
    - destruct (grouped_In
        (fun x => class_name (parentClass (discoveredMethod x))) _ _ Hin)
        as (k & g & Hg & Hm).
      set (per := fun '(x, members) =>
        do! logger LLog ("Registering hasura event handlers from " +:+ x) in
        mapM (register_event_handler x) members).
      destruct (mapM_throws per invalid_binding _ (k, g) Hg) as [es Hes].
      + destruct (mapM_throws (register_event_handler k) invalid_binding g m Hm)
          as [es Hes].
        * eexists. apply register_event_handler_invalid; assumption.
        * intros y es e'. apply register_event_handler_throws.
        * eexists. unfold per, logger. rewrite bind_value, Hes. reflexivity.
      + intros [x members] es e'. unfold per, logger. rewrite bind_value.
        destruct (mapM (register_event_handler x) members) as [es' [e''|v]] eqn:Hmm;
          simpl; [|discriminate].
        intros [= _ <-].
        clear -Hmm. revert es' Hmm.
        induction members as [|y r IH]; simpl; intros es' Hmm; [discriminate|].
        destruct (register_event_handler x y) as [es1 [e1|v1]] eqn:Hy.
        * injection Hmm as _ <-. eapply register_event_handler_throws; eassumption.
        * rewrite bind_value in Hmm.
          destruct (mapM (register_event_handler x) r) as [es2 [e2|v2]] eqn:Hr;
            simpl in Hmm; [|discriminate].
          injection Hmm as _ <-. eapply IH. reflexivity.
      + unfold logger. rewrite !bind_value. simpl. rewrite Hes. simpl.
        eexists _, _. split; [reflexivity|]. intros _. reflexivity.
    - unfold logger. rewrite bind_value. simpl.
      eexists _, _. split; [reflexivity|]. intros Hc. discriminate. }
  destruct Hbuild as (es & e & Hb & He).
  exists es, e. split; [exact Hb|]. split; [|exact He].
  unfold onModuleInit, logger. rewrite bind_value, Hb. reflexivity.
Qed.

(** ** Dispatch of events *)

Lemma handleEvent_unrecognised config eventHandlers evt :
  event_keys evt = None ->
  handleEvent config eventHandlers evt = ([], inl (JsError "Not a Hasura Event")).
Proof. intros H. unfold handleEvent. rewrite H. reflexivity. Qed.

Lemma handleEvent_unmatched config eventHandlers evt keys :
  event_keys evt = Some keys ->
  matching eventHandlers keys = [] ->
  handleEvent config eventHandlers evt =
    ((event_log config keys
      ++ [Logged LError ("Handler not found for " +:+ array_to_string keys)])%list,
     inl (BadRequestException ("Handler not found for " +:+ array_to_string keys))).
Proof.
  intros Hk Hm. unfold handleEvent, event_log. rewrite Hk, Hm.
  destruct (enableEventLogs config); reflexivity.
Qed.

Lemma handleEvent_matched config eventHandlers evt keys :
  event_keys evt = Some keys ->
  matching eventHandlers keys <> [] ->
  handleEvent config eventHandlers evt =
    ((event_log config keys
      ++ map (invocation_of evt) (matching eventHandlers keys))%list,
     inr (map (promise_of evt) (matching eventHandlers keys))).
Proof.
  intros Hk Hm. unfold handleEvent, event_log. rewrite Hk.
  destruct (matching eventHandlers keys) as [|x r] eqn:Hx; [congruence|].
  rewrite (mapM_total (fun x => invoke_event x evt)
             (fun x => [invocation_of evt x]) (promise_of evt))
    by (intros; reflexivity).
  replace (concat (map (fun x => [invocation_of evt x]) (x :: r)))
    with (map (invocation_of evt) (x :: r))
    by (generalize (x :: r); intros l; induction l; simpl; congruence).
  destruct (enableEventLogs config); reflexivity.
Qed.

Lemma invocations_event_log config keys : invocations (event_log config keys) = [].
Proof. unfold event_log. destruct (enableEventLogs config); reflexivity. Qed.

Lemma invocations_app es1 es2 :
  invocations (es1 ++ es2) = (invocations es1 ++ invocations es2)%list.
Proof. apply filter_app. Qed.

Lemma invocations_map_invocation_of evt xs :
  invocations (map (invocation_of evt) xs) = map (invocation_of evt) xs.
Proof.
  unfold invocations. induction xs as [|x r IH]; simpl; [reflexivity|].
  rewrite filter_cons_True by exact I. rewrite IH. reflexivity.
Qed.

(** A binding is among those an event is routed to exactly when it is
    registered and its key is one of the event's candidate keys. *)
Lemma matching_spec eventHandlers keys x :
  In x (matching eventHandlers keys) <->
  In x eventHandlers /\ includes keys (key x) = true.
Proof.
  unfold matching. rewrite <- !list_elem_of_In, list_elem_of_filter.
  rewrite Is_true_true. tauto.
Qed.

Lemma includes_spec keys k :
  includes keys k = true <-> In (VStr k) keys.
Proof.
  unfold includes. rewrite existsb_exists. split.
  - intros (v & Hin & Hv). destruct v; try discriminate.
    apply String.eqb_eq in Hv. subst. exact Hin.
  - intros Hin. exists (VStr k). split; [exact Hin|]. apply String.eqb_refl.
Qed.

Lemma matching_nil eventHandlers keys :
  (forall x, In x eventHandlers -> includes keys (key x) = false) ->
  matching eventHandlers keys = [].
Proof.
  intros Hno. destruct (matching eventHandlers keys) as [|x r] eqn:Hm; [reflexivity|].
  assert (Hx : In x (matching eventHandlers keys)) by (rewrite Hm; left; reflexivity).
  apply matching_spec in Hx. destruct Hx as [Hin Hinc].
  rewrite (Hno x Hin) in Hinc. discriminate.
Qed.

Lemma isHasuraEvent_shape evt :
  to_boolean (isHasuraEvent evt) = table_event_shape evt.
Proof.
  unfold isHasuraEvent, table_event_shape, js_and.
  destruct (to_boolean (get evt "id")) eqn:Hid; simpl.
  - destruct (String.eqb (typeof (get evt "table")) "object"); simpl; reflexivity.
  - rewrite Hid. simpl. rewrite Hid. reflexivity.
Qed.

Lemma isHasuraScheduledEventPayload_shape evt :
  to_boolean (isHasuraScheduledEventPayload evt) = scheduled_event_shape evt.
Proof.
  unfold isHasuraScheduledEventPayload, scheduled_event_shape, js_and.
  destruct (to_boolean (get evt "id")) eqn:Hid; simpl.
  - destruct (to_boolean (get evt "name")) eqn:Hn; simpl.
    + destruct (to_boolean (get evt "scheduled_time")) eqn:Hs; simpl; [reflexivity|].
      rewrite Hs. reflexivity.
    + rewrite Hn. simpl. rewrite Hn. reflexivity.
  - rewrite Hid. simpl. rewrite Hid. simpl. rewrite Hid. reflexivity.
Qed.


(** An event none of whose candidate keys is registered is refused before
    any handler runs. *)
Lemma unrouted_event_throws config eventHandlers evt keys :
  event_keys evt = Some keys ->
  (forall x, In x eventHandlers -> includes keys (key x) = false) ->
  exists es,
    handleEvent config eventHandlers evt =
      (es, inl (BadRequestException ("Handler not found for " +:+ array_to_string keys)))
    /\ invocations es = [].
Proof.
  intros Hk Hno. eexists. split.
  - apply handleEvent_unmatched; [exact Hk|]. apply matching_nil. exact Hno.
  - rewrite invocations_app, invocations_event_log. reflexivity.
Qed.


(** C9: a payload with a truthy [id] whose [table] and [trigger] are [null]
    passes [isHasuraEvent], because [typeof null] is ["object"]; its
    candidate keys are [undefined] and ["undefined-undefined"], and when no
    binding has that key [handleEvent] throws a [BadRequestException], not
    the "Not a Hasura Event" error. *)
Theorem C9_null_table_and_trigger (config : HasuraModuleConfig)
    (eventHandlers : list EventHandlerEntry) (evt : JsObj) :
  to_boolean (get evt "id") = true ->
  evt !! "table" = Some VNull ->
  evt !! "trigger" = Some VNull ->
  (forall x, In x eventHandlers -> key x <> "undefined-undefined") ->
  to_boolean (isHasuraEvent evt) = true
  /\ event_keys evt = Some [VUndefined; VStr "undefined-undefined"]
  /\ exists es,
       handleEvent config eventHandlers evt =
         (es, inl (BadRequestException "Handler not found for ,undefined-undefined"))
       /\ invocations es = [].
Proof.
  intros Hid Ht Hg Hno.
  assert (Hshape : to_boolean (isHasuraEvent evt) = true).
  { rewrite isHasuraEvent_shape. unfold table_event_shape, get.
    fold (get evt "id"). rewrite Hid, Ht, Hg. reflexivity. }
  assert (Hkeys : event_keys evt = Some [VUndefined; VStr "undefined-undefined"]).
  { unfold event_keys. rewrite Hshape. unfold get. rewrite Ht, Hg. reflexivity. }
  split; [exact Hshape|]. split; [exact Hkeys|].
  destruct (unrouted_event_throws config eventHandlers evt _ Hkeys) as (es & Hes & Hinv).
  - intros x Hx.
    change (includes [VUndefined; VStr "undefined-undefined"] (key x))
      with (false || (String.eqb "undefined-undefined" (key x) || false)).
    rewrite orb_false_r. apply String.eqb_neq.
    intros Heq. apply (Hno x Hx). symmetry. exact Heq.
  - exists es. split; [exact Hes|exact Hinv].
Qed.

(** ** Dispatch of actions *)

Lemma invocations_logs es :
  Forall (fun e => is_invocation e = false) es -> invocations es = [].
Proof.
  unfold invocations. induction 1 as [|e es He _ IH]; [reflexivity|].
  rewrite filter_cons_False by (rewrite He; exact id). exact IH.
Qed.

(** C7: [handleAction] looks the handler up under exactly
    [action.action.name].  When none is registered the returned promise
    rejects with a [BadRequestException] and nothing is invoked; when one is,
    that single handler is invoked once with [(action.input, action,
    headers)] and the returned promise is the handler's own outcome. *)
Theorem C7_action_dispatch (actionHandlerMap : gmap string ActionHandler)
    (action : HasuraAction) (headers : Headers) :
  (actionHandlerMap !! action_name action = None ->
     handleAction actionHandlerMap action headers =
       ([Logged LError ("Handler not found for action: " +:+ action_name action)],
        Rejects (BadRequestException
                   ("Handler not found for action: " +:+ action_name action))))
  /\ (forall h, actionHandlerMap !! action_name action = Some h ->
        handleAction actionHandlerMap action headers =
          ([InvokedAction (eh_instance h) (eh_methodName h) (input action) action headers],
           eh_callback h (input action) action headers)).
Proof.
  unfold handleAction.
  destruct (actionHandlerMap !! action_name action) as [h0|]; split.
  - discriminate.
  - intros h [= <-]. reflexivity.
  - reflexivity.
  - discriminate.
Qed.

(** Once the service is found the action build cannot throw, whatever the
    discovered names are. *)
Lemma configureHasuraActionHandlers_total d :
  find_service d "ActionHandlerService" is_action_service = ret tt ->
  exists es,
    configureHasuraActionHandlers d = (es, inr (new_Map (action_entries d)))
    /\ invocations es = [].
Proof.
  intros Hs. unfold configureHasuraActionHandlers. fold is_action_service.
  rewrite Hs. unfold logger at 1. rewrite bind_value, bind_ret_l.
  set (grouped := Object_entries (groupBy _ _)).
  erewrite (mapM_total _
    (fun g : string * list (DiscoveredMethodWithMeta ActionFn string) =>
       Logged LLog ("Registering hasura action handlers from " +:+ g.1)
       :: map (fun m => Logged LLog ("Action '" +:+ meta m +:+ "' -> " +:+ g.1 +:+ "."
                                     +:+ methodName (discoveredMethod m))) g.2)
    (fun g => map action_entry g.2)).
  - rewrite bind_value. simpl. eexists. split; [reflexivity|].
    rewrite app_nil_r. apply invocations_logs.
    constructor; [reflexivity|].
    induction grouped as [|[x g] r IH]; [constructor|].
    simpl. constructor; [reflexivity|]. apply Forall_app. split; [|exact IH].
    clear. induction g as [|m g IH]; constructor; [reflexivity|exact IH].
  - intros [x members] _. unfold logger at 1. rewrite bind_value.
    erewrite (mapM_total _
      (fun m => [Logged LLog ("Action '" +:+ meta m +:+ "' -> " +:+ x +:+ "."
                              +:+ methodName (discoveredMethod m))])
      action_entry) by (intros; reflexivity).
    simpl. f_equal. f_equal.
    induction members as [|m g IH]; simpl; congruence.
Qed.

Lemma new_Map_snoc {V} (entries : list (string * V)) k v :
  new_Map (entries ++ [(k, v)]) = <[k := v]> (new_Map entries).
Proof. unfold new_Map. rewrite foldl_app. reflexivity. Qed.


(** ** [Promise.all] along a schedule *)

Lemma all_run_snoc ps sched i :
  all_run ps (sched ++ [i]) =
    match ps !! i with
    | Some o => all_step (all_run ps sched) i o
    | None => all_run ps sched
    end.
Proof. unfold all_run. rewrite foldl_app. reflexivity. Qed.

Lemma all_run_app ps s1 s2 :
  all_run ps (s1 ++ s2) =
    foldl (fun st i => match ps !! i with
                       | Some o => all_step st i o
                       | None => st
                       end) (all_run ps s1) s2.
Proof. unfold all_run. apply foldl_app. Qed.

(** A schedule without repetition is no longer than the input array. *)
Lemma schedule_length (ps : list Outcome) sched :
  NoDup sched ->
  (forall i, In i sched -> i < length ps) ->
  length sched <= length ps.
Proof.
  intros Hnd Hin. rewrite <- (length_seq (length ps) 0).
  apply NoDup_incl_length; [apply NoDup_ListNoDup; exact Hnd|].
  intros i Hi. apply in_seq. specialize (Hin i Hi). lia.
Qed.

(** While only fulfilments have come in, [Promise.all] counts them, stores
    each value at the index of its input, and stays pending until the last
    one. *)
Lemma all_run_fulfilments (ps : list Outcome) sched :
  valid_schedule ps sched ->
  (forall i o, In i sched -> ps !! i = Some o -> rejects o = false) ->
  remaining (all_run ps sched) = length ps - length sched
  /\ length (values (all_run ps sched)) = length ps
  /\ (forall j v, In j sched -> ps !! j = Some (Fulfils v) ->
        values (all_run ps sched) !! j = Some v)
  /\ (0 < length ps ->
        result (all_run ps sched) =
          if (length sched <? length ps)%nat then Pending
          else Fulfilled (VArr (values (all_run ps sched)))).
Proof.
  induction sched as [|i s IH] using rev_ind; intros [Hnd Hval] Hnr.
  - unfold all_run. simpl. rewrite length_replicate.
    repeat split; [lia| |].
    + intros j v [].
    + intros Hpos. destruct (length ps) as [|n] eqn:Hn; [lia|]. reflexivity.
  - apply NoDup_app in Hnd. destruct Hnd as (Hnd & Hdisj & _).
    assert (Hi : ~ In i s).
    { intros Hi. apply list_elem_of_In in Hi. apply (Hdisj i Hi). left. }
    destruct IH as (Hrem & Hlen & Hvals & Hres).
    { split; [exact Hnd|]. intros j Hj. apply Hval, in_or_app. left. exact Hj. }
    { intros j o Hj. apply Hnr, in_or_app. left. exact Hj. }
    destruct (Hval i) as (o & Ho & Hset); [apply in_or_app; right; left; reflexivity|].
    assert (Hrej : rejects o = false)
      by (apply (Hnr i o); [apply in_or_app; right; left; reflexivity|exact Ho]).
    assert (Hlt : i < length ps) by (eapply lookup_lt_Some; exact Ho).
    assert (Hbound : length (s ++ [i]) <= length ps).
    { apply schedule_length.
      - apply NoDup_app. split; [exact Hnd|]. split; [|apply NoDup_singleton].
        intros x Hx Hx'. apply list_elem_of_In in Hx, Hx'.
        destruct Hx' as [<-|[]]. exact (Hi Hx).
      - intros j Hj. destruct (Hval j Hj) as (o' & Ho' & _).
        eapply lookup_lt_Some. exact Ho'. }
    rewrite length_app in Hbound. simpl in Hbound.
    rewrite all_run_snoc, Ho, length_app. simpl.
    destruct o as [v|e|]; [|discriminate|discriminate].
    unfold all_step. simpl. rewrite length_insert, Hrem.
    repeat split; [lia|exact Hlen| |].
    + intros j w Hj Hjw. apply in_app_or in Hj.
      destruct (decide (j = i)) as [->|Hne].
      * rewrite Ho in Hjw. injection Hjw as <-.
        apply list_lookup_insert_eq. lia.
      * rewrite list_lookup_insert_ne by congruence.
        destruct Hj as [Hj|[Hj|[]]]; [|congruence]. apply Hvals; assumption.
    + intros Hpos. rewrite (Hres Hpos).
      replace (length s <? length ps)%nat with true
        by (symmetry; apply Nat.ltb_lt; lia).
      destruct (length s + 1 <? length ps)%nat eqn:Hlast.
      * apply Nat.ltb_lt in Hlast.
        replace (pred (length ps - length s) =? 0)%nat with false
          by (symmetry; apply Nat.eqb_neq; lia).
        reflexivity.
      * apply Nat.ltb_ge in Hlast.
        replace (pred (length ps - length s) =? 0)%nat with true
          by (symmetry; apply Nat.eqb_eq; lia).
        reflexivity.
Qed.

(** Once rejected, the promise of [Promise.all] ignores later settlements. *)
Lemma all_step_rejected st i o e :
  result st = Rejected e -> result (all_step st i o) = Rejected e.
Proof.
  intros H. destruct o as [v|e'|]; simpl; rewrite ?H; try reflexivity.
  destruct (pred (remaining st) =? 0)%nat; reflexivity.
Qed.

Lemma all_run_rejected_stable ps s1 s2 e :
  result (all_run ps s1) = Rejected e ->
  result (all_run ps (s1 ++ s2)) = Rejected e.
Proof.
  rewrite all_run_app. generalize (all_run ps s1).
  induction s2 as [|i r IH]; intros st H; [exact H|].
  simpl. apply IH. destruct (ps !! i); [apply all_step_rejected|]; exact H.
Qed.

(** The first rejection to come in rejects [Promise.all] at once, with that
    error, however many inputs are still unsettled. *)
Lemma Promise_all_first_rejection (ps : list Outcome) before i e after :
  valid_schedule ps (before ++ [i]) ->
  (forall j o, In j before -> ps !! j = Some o -> rejects o = false) ->
  ps !! i = Some (Rejects e) ->
  Promise_all ps before = Pending
  /\ Promise_all ps (before ++ [i]) = Rejected e
  /\ Promise_all ps (before ++ i :: after) = Rejected e.
Proof.
  intros [Hnd Hval] Hnr Hi.
  assert (Hlt : i < length ps) by (eapply lookup_lt_Some; exact Hi).
  assert (Hbound : length (before ++ [i]) <= length ps).
  { apply schedule_length; [exact Hnd|].
    intros j Hj. destruct (Hval j Hj) as (o & Ho & _). eapply lookup_lt_Some. exact Ho. }
  rewrite length_app in Hbound. simpl in Hbound.
  destruct (all_run_fulfilments ps before) as (_ & _ & _ & Hres).
  { apply NoDup_app in Hnd. destruct Hnd as (Hnd & _ & _). split; [exact Hnd|].
    intros j Hj. apply Hval, in_or_app. left. exact Hj. }
  { exact Hnr. }
  assert (Hpend : Promise_all ps before = Pending).
  { unfold Promise_all. rewrite Hres by lia.
    replace (length before <? length ps)%nat with true
      by (symmetry; apply Nat.ltb_lt; lia).
    reflexivity. }
  assert (Hrej : Promise_all ps (before ++ [i]) = Rejected e).
  { unfold Promise_all in *. rewrite all_run_snoc, Hi. simpl. rewrite Hpend. reflexivity. }
  split; [exact Hpend|]. split; [exact Hrej|].
  unfold Promise_all in *.
  change (before ++ i :: after)%list with (before ++ [i] ++ after)%list.
  rewrite app_assoc. apply all_run_rejected_stable. exact Hrej.
Qed.


(** ** Fan-out *)

(** What [handleEvent] has done when it returns a promise: it has invoked
    every matching binding, in table order, and hands their promises to
    [Promise.all]. *)
Lemma handleEvent_returns config eventHandlers evt es ps :
  handleEvent config eventHandlers evt = (es, inr ps) ->
  exists keys,
    event_keys evt = Some keys
    /\ matching eventHandlers keys <> []
    /\ invocations es = map (invocation_of evt) (matching eventHandlers keys)
    /\ ps = map (promise_of evt) (matching eventHandlers keys).
Proof.
  intros H. destruct (event_keys evt) as [keys|] eqn:Hk.
  - exists keys. split; [reflexivity|].
    destruct (matching eventHandlers keys) as [|x r] eqn:Hm.
    + rewrite (handleEvent_unmatched _ _ _ _ Hk Hm) in H. discriminate.
    + assert (Hne : matching eventHandlers keys <> []) by (rewrite Hm; discriminate).
      rewrite (handleEvent_matched _ _ _ _ Hk Hne) in H.
      injection H as <- <-. rewrite <- Hm.
      split; [exact Hne|]. split; [|reflexivity].
      rewrite invocations_app, invocations_event_log, invocations_map_invocation_of.
      reflexivity.
  - rewrite (handleEvent_unrecognised _ _ _ Hk) in H. discriminate.
Qed.

(** C2 (amended): when a dispatch has matched handlers, all of them have
    been invoked before [handleEvent] returns, and the first of their
    promises to reject rejects the dispatch with that very error at that
    moment, whether or not the other handlers have settled; later
    settlements do not change the outcome. *)
Theorem C2_first_rejection_fails_dispatch (config : HasuraModuleConfig)
    (eventHandlers : list EventHandlerEntry) (evt : JsObj)
    (es : list Effect) (ps : list Outcome)
    (before : list nat) (i : nat) (e : Exn) (after : list nat) :
  handleEvent config eventHandlers evt = (es, inr ps) ->
  valid_schedule ps (before ++ [i]) ->
  (forall j o, In j before -> ps !! j = Some o -> rejects o = false) ->
  ps !! i = Some (Rejects e) ->
  (exists keys,
     event_keys evt = Some keys
     /\ invocations es = map (invocation_of evt) (matching eventHandlers keys)
     /\ ps = map (promise_of evt) (matching eventHandlers keys))
  /\ Promise_all ps before = Pending
  /\ Promise_all ps (before ++ [i]) = Rejected e
  /\ Promise_all ps (before ++ i :: after) = Rejected e.
Proof.
  intros Hd Hv Hnr Hi. split.
  - destruct (handleEvent_returns _ _ _ _ _ Hd) as (keys & Hk & _ & Hinv & Hps).
    exists keys. repeat split; assumption.
  - apply Promise_all_first_rejection; assumption.
Qed.




(** ** Routing keys *)






(** ** Order of registration *)

Lemma group_insert_keys {A} (k : string) (x : A) gs k' :
  In k' (map fst (group_insert k x gs)) <-> In k' (map fst gs) \/ k' = k.
Proof.
  induction gs as [|[k0 g0] r IH]; simpl.
  - split; [intros [H|[]]; right; congruence|intros [[]|H]; left; congruence].
  - destruct (String.eqb k0 k) eqn:Hk; simpl.
    + apply String.eqb_eq in Hk. subst. intuition congruence.
    + rewrite IH. tauto.
Qed.

Lemma group_insert_well_grouped {A} (f : A -> string) (x : A) gs :
  well_grouped f gs -> well_grouped f (group_insert (f x) x gs).
Proof.
  induction gs as [|[k0 g0] r IH]; intros [Hnd Hmem]; simpl.
  - split; [apply NoDup_singleton|].
    intros k g y [[= <- <-]|[]] [<-|[]]. reflexivity.
  - simpl in Hnd. apply NoDup_cons in Hnd. destruct Hnd as [Hk0 Hnd].
    destruct IH as [IHnd IHmem].
    { split; [exact Hnd|]. intros k g y Hg. apply Hmem. right. exact Hg. }
    destruct (String.eqb k0 (f x)) eqn:Hk.
    + apply String.eqb_eq in Hk. split.
      * simpl. apply NoDup_cons. split; assumption.
      * intros k g y [[= <- <-]|Hg] Hy.
        -- apply in_app_or in Hy. destruct Hy as [Hy|[<-|[]]].
           ++ apply (Hmem k0 g0); [left; reflexivity|exact Hy].
           ++ symmetry. exact Hk.
        -- apply (Hmem k g); [right; exact Hg|exact Hy].
    + apply String.eqb_neq in Hk. split.
      * simpl. apply NoDup_cons. split; [|exact IHnd].
        rewrite list_elem_of_In, group_insert_keys.
        intros [H|H]; [|congruence]. apply Hk0, list_elem_of_In. exact H.
      * intros k g y [[= <- <-]|Hg] Hy.
        -- apply (Hmem k0 g0); [left; reflexivity|exact Hy].
        -- apply (IHmem k g); assumption.
Qed.

Lemma filter_none {A} (P : A -> Prop) `{forall x, Decision (P x)} (l : list A) :
  (forall y, In y l -> ~ P y) -> filter P l = [].
Proof.
  induction l as [|y r IH]; intros Hno; [reflexivity|].
  rewrite filter_cons_False by (apply Hno; left; reflexivity).
  apply IH. intros z Hz. apply Hno. right. exact Hz.
Qed.

Lemma members_other_key {A} (f : A -> string) (gs : list (string * list A)) k :
  (forall k' g y, In (k', g) gs -> In y g -> f y = k') ->
  ~ In k (map fst gs) ->
  filter (fun y => f y = k) (members gs) = [].
Proof.
  intros Hmem Hk. induction gs as [|[k0 g0] r IH]; [reflexivity|].
  unfold members, flatten in *. simpl. rewrite filter_app, IH.
  - rewrite app_nil_r. apply filter_none.
    intros y Hy Hfy. apply Hk. left. simpl. rewrite <- Hfy.
    symmetry. apply (Hmem k0 g0 y); [left; reflexivity|exact Hy].
  - intros k' g y Hg. apply Hmem. right. exact Hg.
  - intros H. apply Hk. right. exact H.
Qed.

Lemma group_insert_members {A} (f : A -> string) (x : A) gs k :
  well_grouped f gs ->
  filter (fun y => f y = k) (members (group_insert (f x) x gs))
  = (filter (fun y => f y = k) (members gs) ++ filter (fun y => f y = k) [x])%list.
Proof.
  induction gs as [|[k0 g0] r IH]; intros [Hnd Hmem].
  - reflexivity.
  - simpl in Hnd. apply NoDup_cons in Hnd. destruct Hnd as [Hk0 Hnd].
    assert (Hr : well_grouped f r).
    { split; [exact Hnd|]. intros k' g y Hg. apply Hmem. right. exact Hg. }
    simpl. destruct (String.eqb k0 (f x)) eqn:Hk.
    + apply String.eqb_eq in Hk. unfold members, flatten. simpl.
      rewrite !filter_app, <- !app_assoc. f_equal.
      fold (flatten (map snd r)). fold (members r).
      destruct (decide (f x = k)) as [Hx|Hx].
      * rewrite (members_other_key f r k), app_nil_l, app_nil_r; [reflexivity| |].
        -- intros k' g y Hg. apply Hmem. right. exact Hg.
        -- rewrite <- Hx, <- Hk. rewrite <- list_elem_of_In. exact Hk0.
      * rewrite (filter_cons_False _ x []) by exact Hx.
        rewrite filter_nil, app_nil_l, app_nil_r. reflexivity.
    + unfold members, flatten in *. simpl.
      rewrite !filter_app, IH by exact Hr. rewrite app_assoc. reflexivity.
Qed.

(** [groupBy] is a stable partition: the members filed under a key are the
    elements with that key, in their original order. *)
Lemma groupBy_stable {A} (f : A -> string) (xs : list A) k :
  filter (fun y => f y = k) (members (groupBy f xs)) = filter (fun y => f y = k) xs.
Proof.
  unfold groupBy.
  assert (Hgen : forall gs, well_grouped f gs ->
    filter (fun y => f y = k)
           (members (foldl (fun gs x => group_insert (f x) x gs) gs xs))
    = (filter (fun y => f y = k) (members gs) ++ filter (fun y => f y = k) xs)%list).
  { induction xs as [|x r IH]; intros gs Hgs; simpl.
    - rewrite app_nil_r. reflexivity.
    - rewrite IH by (apply group_insert_well_grouped; exact Hgs).
      rewrite group_insert_members by exact Hgs.
      rewrite <- app_assoc. f_equal.
      change (x :: r) with ([x] ++ r)%list. rewrite filter_app. reflexivity. }
  rewrite Hgen.
  - reflexivity.
  - split; [apply NoDup_nil; exact I|]. intros k' g y [].
Qed.

Lemma mapM_values {A B} (f : A -> M B) (h : A -> B) xs es ys :
  (forall x es y, f x = (es, inr y) -> y = h x) ->
  mapM f xs = (es, inr ys) -> ys = map h xs.
Proof.
  intros Hf. revert es ys. induction xs as [|x r IH]; intros es ys H; simpl in H.
  - injection H as _ <-. reflexivity.
  - destruct (f x) as [es1 [e|y]] eqn:Hx; [discriminate|].
    rewrite bind_value in H.
    destruct (mapM f r) as [es2 [e|zs]] eqn:Hr; simpl in H; [discriminate|].
    injection H as _ <-. simpl.
    rewrite (Hf _ _ _ Hx), (IH _ _ eq_refl). reflexivity.
Qed.

Lemma register_event_handler_value x m es y :
  register_event_handler x m = (es, inr y) -> y = event_entry m.
Proof.
  unfold register_event_handler.
  destruct (negb (bool_decide (is_Some (table (meta m))))
            && negb (truthy_str (triggerName (meta m)))); [discriminate|].
  rewrite bind_ret_l.
  destruct (bool_decide (is_Some (table (meta m))));
    destruct (truthy_str (triggerName (meta m))); simpl;
    intros [= _ <-]; reflexivity.
Qed.

(** The table of a successful event build, in registration order. *)
Lemma configureHasuraEventHandlers_table d es eventHandlers :
  configureHasuraEventHandlers d = (es, inr eventHandlers) ->
  eventHandlers = event_entries d.
Proof.
  unfold configureHasuraEventHandlers. fold is_event_service.
  destruct (find_service_cases d "EventHandlerService" is_event_service) as [Hs|Hs];
    rewrite Hs; unfold logger; [|discriminate].
  rewrite bind_value, bind_ret_l. simpl.
  set (grouped := Object_entries (groupBy _ _)).
  destruct (mapM _ grouped) as [es1 [e|per_class]] eqn:Hm; simpl; [discriminate|].
  intros [= _ <-]. unfold event_entries. fold grouped. f_equal.
  eapply mapM_values; [|exact Hm].
  intros [x ms] es2 y. cbv beta iota.
  destruct (mapM (register_event_handler x) ms) as [es3 [e|zs]] eqn:Hi;
    [discriminate|].
  intros [= _ <-]. eapply mapM_values; [|exact Hi].
  intros m es4 z. apply register_event_handler_value.
Qed.

(** Registration goes class by class: a handler discovered between two
    handlers of another class is registered after both. *)
Example registration_groups_classes :
  map key (event_entries
    (discovery_of
       [event_method "UserService" "first" (fulfilling "1") (by_trigger "a");
        event_method "OrderService" "second" (fulfilling "2") (by_trigger "b");
        event_method "UserService" "third" (fulfilling "3") (by_trigger "c")] []))
  = ["a"; "c"; "b"].
Proof. reflexivity. Qed.

(** ** The claims on the sample application *)

(** C1: a binding with both [table] and [triggerName] set.  The build logs
    the warning that both bindings are set and will cause duplicate
    processing, yet registers the single key ["user_created"]; an event of
    table [public.user] fired by another trigger finds no handler and is
    refused with a [BadRequestException]. *)
Theorem C1_table_key_dropped_when_trigger_set :
  let x := entry_of "user_created" "UserService" "onUser" (fulfilling "done") in
  let evt := table_event "1" "user_updated" "public" "user" in
  (exists logs,
     configureHasuraEventHandlers dual_discovery = (logs, inr [x])
     /\ In (Logged LWarn "Both table and trigger bindings are set for onUser. This is not recommended and will cause duplicate message processing") logs)
  /\ event_keys evt = Some [VStr "user_updated"; VStr "public-user"]
  /\ matching [x] [VStr "user_updated"; VStr "public-user"] = []
  /\ handleEvent quiet [x] evt =
       ([Logged LError "Handler not found for user_updated,public-user"],
        inl (BadRequestException "Handler not found for user_updated,public-user")).
Proof.
  intros x evt. split; [|split; [|split]].
  - eexists. split; [vm_compute; reflexivity|]. do 3 right. left. reflexivity.
  - vm_compute. reflexivity.
  - vm_compute. reflexivity.
  - vm_compute. reflexivity.
Qed.

(** C2 fails as stated: with the failing handler settling first, the
    dispatch is already rejected while the second handler is still
    running. *)
Lemma C2_counterexample :
  handleEvent quiet fan_out_table (table_event "1" "user_created" "public" "user")
    = ([InvokedEvent (InstApp "MailService") "sendWelcome"
          (table_event "1" "user_created" "public" "user");
        InvokedEvent (InstApp "AuditService") "record"
          (table_event "1" "user_created" "public" "user")],
       inr fan_out_promises)
  /\ valid_schedule fan_out_promises [0]
  /\ Promise_all fan_out_promises [0] = Rejected (Raised (VStr "smtp down"))
  /\ ~ In 1 [0]
  /\ ~ rejects_only_after_all_settled fan_out_promises.
Proof.
  assert (Hv : valid_schedule fan_out_promises [0]).
  { split; [apply NoDup_singleton|].
    intros i [<-|[]]. eexists. split; reflexivity. }
  split; [vm_compute; reflexivity|]. split; [exact Hv|].
  split; [reflexivity|]. split; [simpl; lia|].
  intros Hclaim.
  specialize (Hclaim [0] (Raised (VStr "smtp down")) Hv eq_refl 1).
  simpl in Hclaim. lia.
Qed.

Lemma C2_witness :
  Promise_all fan_out_promises [] = Pending
  /\ Promise_all fan_out_promises [0] = Rejected (Raised (VStr "smtp down"))
  /\ Promise_all fan_out_promises [0; 1] = Rejected (Raised (VStr "smtp down")).
Proof.
  refine (proj2 (C2_first_rejection_fails_dispatch quiet fan_out_table
            (table_event "1" "user_created" "public" "user")
            (handleEvent quiet fan_out_table
               (table_event "1" "user_created" "public" "user")).1
            fan_out_promises [] 0 (Raised (VStr "smtp down")) [1] _ _ _ _)).
  - vm_compute. reflexivity.
  - split; [apply NoDup_singleton|].
    intros i [<-|[]]. eexists. split; reflexivity.
  - intros j o [].
  - reflexivity.
Defined.



Lemma C5_witness :
  exists es e,
    configureHasuraEventHandlers
      (discovery_of [event_method "UserService" "onUser" (fulfilling "done") unbound] [])
      = (es, inl e)
    /\ onModuleInit
         (discovery_of [event_method "UserService" "onUser" (fulfilling "done") unbound] [])
       = (Logged LLog "Initializing Hasura Module" :: es, inl e)
    /\ (find_service
          (discovery_of [event_method "UserService" "onUser" (fulfilling "done") unbound] [])
          "EventHandlerService" is_event_service = ret tt ->
        e = invalid_binding).
Proof.
  apply (C5_unbound_binding_aborts_init
           (discovery_of [event_method "UserService" "onUser" (fulfilling "done") unbound] [])
           (event_method "UserService" "onUser" (fulfilling "done") unbound)).
  - left. reflexivity.
  - reflexivity.
  - reflexivity.
Defined.

Lemma C7_witness :
  handleAction
    (new_Map [("createUser",
               create (InstApp "UserService") (fun _ _ _ => Fulfils (VStr "created")) "create")])
    createUser_action ∅
  = ([InvokedAction (InstApp "UserService") "create" (VObj ∅) createUser_action ∅],
     Fulfils (VStr "created"))
  /\ handleAction (new_Map []) createUser_action ∅
     = ([Logged LError "Handler not found for action: createUser"],
        Rejects (BadRequestException "Handler not found for action: createUser")).
Proof.
  split.
  - apply (proj2 (C7_action_dispatch
             (new_Map [("createUser",
                        create (InstApp "UserService")
                               (fun _ _ _ => Fulfils (VStr "created")) "create")])
             createUser_action ∅)
             (create (InstApp "UserService")
                     (fun _ _ _ => Fulfils (VStr "created")) "create")).
    vm_compute. reflexivity.
  - apply (proj1 (C7_action_dispatch (new_Map []) createUser_action ∅)).
    reflexivity.
Defined.



Lemma C9_witness :
  to_boolean (isHasuraEvent {[ "id" := VStr "1"; "table" := VNull; "trigger" := VNull ]}) = true
  /\ event_keys {[ "id" := VStr "1"; "table" := VNull; "trigger" := VNull ]}
     = Some [VUndefined; VStr "undefined-undefined"]
  /\ exists es,
       handleEvent quiet fan_out_table
         {[ "id" := VStr "1"; "table" := VNull; "trigger" := VNull ]}
       = (es, inl (BadRequestException "Handler not found for ,undefined-undefined"))
       /\ invocations es = [].
Proof.
  apply (C9_null_table_and_trigger quiet fan_out_table
           {[ "id" := VStr "1"; "table" := VNull; "trigger" := VNull ]}).
  - vm_compute. reflexivity.
  - vm_compute. reflexivity.
  - vm_compute. reflexivity.
  - intros x [<-|[<-|[]]]; discriminate.
Defined.


(** * Further properties of the module *)

(** ** Effects of the builds *)

Lemma bind_effects {A B} (m : M A) (f : A -> M B) :
  (bind m f).1 = (m.1 ++ match m.2 with inl _ => [] | inr a => (f a).1 end)%list.
Proof.
  destruct m as [es [e|a]]; simpl.
  - rewrite app_nil_r. reflexivity.
  - destruct (f a). reflexivity.
Qed.

Lemma bind_result {A B} (m : M A) (f : A -> M B) :
  (bind m f).2 = match m.2 with inl e => inl e | inr a => (f a).2 end.
Proof. destruct m as [es [e|a]]; simpl; [reflexivity|]. destruct (f a). reflexivity. Qed.

(** Every effect of [xs.map(f)] is an effect of [f] on some element. *)
Lemma mapM_effect_origin {A B} (f : A -> M B) xs e :
  In e (mapM f xs).1 -> exists x, In x xs /\ In e (f x).1.
Proof.
  induction xs as [|x r IH]; simpl; [intros []|].
  rewrite bind_effects. intros H. apply in_app_or in H. destruct H as [H|H].
  - exists x. split; [left; reflexivity|exact H].
  - destruct (f x).2 as [e'|y]; [destruct H|].
    rewrite bind_effects in H. apply in_app_or in H. destruct H as [H|H].
    + destruct (IH H) as (z & Hz & He). exists z. split; [right; exact Hz|exact He].
    + destruct (mapM f r).2; destruct H.
Qed.

(** When [xs.map(f)] completes, the effects of [f] on every element have
    happened. *)
Lemma mapM_effects_complete {A B} (f : A -> M B) xs x e ys :
  (mapM f xs).2 = inr ys -> In x xs -> In e (f x).1 -> In e (mapM f xs).1.
Proof.
  revert ys. induction xs as [|z r IH]; intros ys Hok Hx He; [destruct Hx|].
  simpl in *. rewrite bind_result in Hok. rewrite bind_effects.
  destruct (f z).2 as [e'|y] eqn:Hz; [discriminate|].
  rewrite bind_result in Hok. rewrite bind_effects.
  destruct (mapM f r).2 as [e'|zs] eqn:Hr; [discriminate|].
  apply in_or_app. destruct Hx as [->|Hx].
  - left. exact He.
  - right. apply in_or_app. left. eapply IH; [reflexivity|exact Hx|exact He].
Qed.

Lemma register_event_handler_effects x m e :
  In e (register_event_handler x m).1 ->
  (e = deprecation_warning (methodName (discoveredMethod m))
   /\ is_Some (table (meta m)))
  \/ (e = dual_binding_warning (methodName (discoveredMethod m))
      /\ is_Some (table (meta m)) /\ truthy_str (triggerName (meta m)) = true).
Proof.
  unfold register_event_handler.
  destruct (table (meta m)) as [t|] eqn:Ht.
  - rewrite bool_decide_eq_true_2 by eauto. simpl.
    destruct (truthy_str (triggerName (meta m))) eqn:Hn; simpl.
    + intros [<-|[<-|[]]]; [left|right]; eauto.
    + intros [<-|[]]. left. eauto.
  - rewrite bool_decide_eq_false_2 by (intros [t' Ht']; discriminate). simpl.
    destruct (truthy_str (triggerName (meta m))); simpl; intros [].
Qed.

(** ** What [groupBy] keeps *)

Lemma members_cons {A} (k : string) (g : list A) gs :
  members ((k, g) :: gs) = (g ++ members gs)%list.
Proof. reflexivity. Qed.

Lemma group_insert_perm {A} (k : string) (x : A) gs :
  Permutation (members (group_insert k x gs)) (x :: members gs).
Proof.
  induction gs as [|[k0 g0] r IH]; simpl; [reflexivity|].
  destruct (String.eqb k0 k).
  - rewrite !members_cons, <- app_assoc. simpl.
    symmetry. apply Permutation_middle.
  - rewrite !members_cons, IH. symmetry. apply Permutation_middle.
Qed.

(** Grouping neither loses nor duplicates an element. *)
Lemma groupBy_perm {A} (f : A -> string) (xs : list A) :
  Permutation (members (groupBy f xs)) xs.
Proof.
  unfold groupBy.
  assert (Hgen : forall gs,
    Permutation (members (foldl (fun gs x => group_insert (f x) x gs) gs xs))
                (members gs ++ xs)).
  { induction xs as [|x r IH]; intros gs; simpl.
    - rewrite app_nil_r. reflexivity.
    - rewrite IH, group_insert_perm. simpl. apply Permutation_middle. }
  apply Hgen.
Qed.

Lemma groupBy_well_grouped {A} (f : A -> string) (xs : list A) :
  well_grouped f (groupBy f xs).
Proof.
  unfold groupBy.
  assert (Hgen : forall gs, well_grouped f gs ->
    well_grouped f (foldl (fun gs x => group_insert (f x) x gs) gs xs)).
  { induction xs as [|x r IH]; intros gs Hgs; simpl; [exact Hgs|].
    apply IH, group_insert_well_grouped, Hgs. }
  apply Hgen. split; [apply NoDup_nil; exact I|]. intros k g y [].
Qed.

Lemma group_insert_nonempty {A} (k : string) (x : A) gs :
  (forall k' g, In (k', g) gs -> g <> []) ->
  forall k' g, In (k', g) (group_insert k x gs) -> g <> [].
Proof.
  induction gs as [|[k0 g0] r IH]; intros Hne k' g; simpl.
  - intros [[= <- <-]|[]]. discriminate.
  - destruct (String.eqb k0 k).
    + intros [[= <- <-]|Hg]; [destruct g0; discriminate|].
      apply (Hne k' g). right. exact Hg.
    + intros [[= <- <-]|Hg]; [apply (Hne k0 g0); left; reflexivity|].
      apply (IH (fun k1 g1 H1 => Hne k1 g1 (or_intror H1)) k' g Hg).
Qed.

(** A group of [groupBy] is not empty, its members carry the group's key,
    and they are elements of the grouped list. *)
Lemma groupBy_group {A} (f : A -> string) (xs : list A) k g :
  In (k, g) (groupBy f xs) ->
  g <> [] /\ forall y, In y g -> f y = k /\ In y xs.
Proof.
  intros Hg. split.
  - revert k g Hg. unfold groupBy.
    assert (Hgen : forall gs, (forall k' g, In (k', g) gs -> g <> []) ->
      forall k' g, In (k', g) (foldl (fun gs x => group_insert (f x) x gs) gs xs) ->
                   g <> []).
    { induction xs as [|x r IH]; intros gs Hgs; simpl; [exact Hgs|].
      apply IH, group_insert_nonempty, Hgs. }
    apply Hgen. intros k' g [].
  - intros y Hy. split.
    + destruct (groupBy_well_grouped f xs) as [_ Hm]. apply (Hm k g y Hg Hy).
    + apply (Permutation_in _ (groupBy_perm f xs)).
      unfold members, flatten. apply in_concat. exists g. split; [|exact Hy].
      apply (in_map snd _ _ Hg).
Qed.

Lemma grouped_group {A} (f : A -> string) (xs : list A) k g :
  In (k, g) (Object_entries (groupBy f xs)) ->
  g <> [] /\ forall y, In y g -> f y = k /\ In y xs.
Proof. intros Hg. apply groupBy_group, Object_entries_In, Hg. Qed.

(** ** Effects of the builds, continued *)

(** Every effect of the event build is a logger call. *)
Lemma configureHasuraEventHandlers_effects d e :
  In e (configureHasuraEventHandlers d).1 ->
  e = Logged LLog "Connecting Hasura Events"
  \/ (exists m, In m (event_methods d)
                /\ e = Logged LLog ("Registering hasura event handlers from " +:+ class_of m))
  \/ (exists m, In m (event_methods d) /\ In e (register_event_handler (class_of m) m).1).
Proof.
  unfold configureHasuraEventHandlers. fold is_event_service.
  rewrite bind_effects. simpl. intros [H|H]; [left; symmetry; exact H|].
  rewrite bind_effects in H.
  destruct (find_service_cases d "EventHandlerService" is_event_service) as [Hs|Hs];
    rewrite Hs in H; unfold ret, throw in H; cbn [fst snd app] in H; [|destruct H].
  rewrite bind_effects, in_app_iff in H. destruct H as [H|H].
  - apply mapM_effect_origin in H. destruct H as ([x g] & Hg & He).
    destruct (grouped_group _ _ _ _ Hg) as [Hne Hmem].
    cbv beta iota in He.
    destruct (mapM (register_event_handler x) g) as [es' r'] eqn:Hi.
    simpl in He. destruct He as [He|He].
    + right. left. destruct g as [|m g]; [congruence|].
      destruct (Hmem m (or_introl eq_refl)) as [Hc Hin].
      exists m. split; [exact Hin|]. unfold class_of. rewrite Hc. symmetry. exact He.
    + replace es' with (mapM (register_event_handler x) g).1 in He
        by (rewrite Hi; reflexivity).
      apply mapM_effect_origin in He. destruct He as (m & Hm & He).
      destruct (Hmem m Hm) as [Hc Hin].
      right. right. exists m. split; [exact Hin|]. unfold class_of. rewrite Hc. exact He.
  - destruct (mapM _ _).2; destruct H.
Qed.

Lemma mapM_success_each {A B} (f : A -> M B) xs ys x :
  (mapM f xs).2 = inr ys -> In x xs -> exists y, (f x).2 = inr y.
Proof.
  revert ys. induction xs as [|z r IH]; intros ys Hok Hx; [destruct Hx|].
  simpl in Hok. rewrite bind_result in Hok.
  destruct (f z).2 as [e|y] eqn:Hz; [discriminate|].
  rewrite bind_result in Hok.
  destruct (mapM f r).2 as [e|zs] eqn:Hr; [discriminate|].
  destruct Hx as [<-|Hx]; [eauto|]. eapply IH; [reflexivity|exact Hx].
Qed.

Lemma configureHasuraActionHandlers_logs d :
  invocations (configureHasuraActionHandlers d).1 = [].
Proof.
  destruct (find_service_cases d "ActionHandlerService" is_action_service) as [Hs|Hs].
  - destruct (configureHasuraActionHandlers_total d Hs) as (es & Hes & Hinv).
    rewrite Hes. exact Hinv.
  - unfold configureHasuraActionHandlers. fold is_action_service. rewrite Hs.
    reflexivity.
Qed.

Lemma configureHasuraEventHandlers_logs d :
  invocations (configureHasuraEventHandlers d).1 = [].
Proof.
  apply invocations_logs, Forall_forall. intros e He.
  apply list_elem_of_In, configureHasuraEventHandlers_effects in He.
  destruct He as [->|[(m & _ & ->)|(m & _ & He)]]; [reflexivity|reflexivity|].
  apply register_event_handler_effects in He.
  destruct He as [[-> _]|[-> _]]; reflexivity.
Qed.

(** X9: initialisation never invokes an application handler, whether it
    succeeds or aborts: all [onModuleInit] does besides building the two
    tables is logging. *)
Theorem onModuleInit_never_invokes (d : DiscoveryService) :
  invocations (onModuleInit d).1 = [].
Proof.
  unfold onModuleInit. rewrite bind_effects, invocations_app.
  unfold logger. cbn [fst snd]. rewrite bind_effects, invocations_app.
  rewrite configureHasuraEventHandlers_logs.
  destruct (configureHasuraEventHandlers d).2 as [e|evs]; [reflexivity|].
  rewrite bind_effects, invocations_app, configureHasuraActionHandlers_logs.
  destruct (configureHasuraActionHandlers d).2; reflexivity.
Qed.

(** X11: in a build that succeeds, every binding that names a table has the
    deprecation warning logged for its method, every binding that names a
    table and a trigger has the duplicate-processing warning logged as
    well, and no other warning is logged: an application that binds by
    trigger name only starts without warnings. *)
Theorem event_build_warnings (d : DiscoveryService) (es : list Effect)
    (eventHandlers : list EventHandlerEntry) :
  configureHasuraEventHandlers d = (es, inr eventHandlers) ->
  (forall m, In m (event_methods d) -> is_Some (table (meta m)) ->
     In (deprecation_warning (methodName (discoveredMethod m))) es)
  /\ (forall m, In m (event_methods d) -> is_Some (table (meta m)) ->
        truthy_str (triggerName (meta m)) = true ->
        In (dual_binding_warning (methodName (discoveredMethod m))) es)
  /\ (forall e, In e es -> is_warning e = true ->
        exists m, In m (event_methods d) /\ is_Some (table (meta m))
                  /\ (e = deprecation_warning (methodName (discoveredMethod m))
                      \/ e = dual_binding_warning (methodName (discoveredMethod m)))).
Proof.
  intros Hb.
  assert (Hcomplete : forall m e, In m (event_methods d) ->
            In e (register_event_handler (class_of m) m).1 -> In e es).
  { intros m e Hm He.
    destruct (grouped_In (fun x => class_name (parentClass (discoveredMethod x)))
                _ _ Hm) as (k & g & Hg & Hmg).
    destruct (grouped_group _ _ _ _ Hg) as [_ Hmem].
    destruct (Hmem m Hmg) as [Hk _]. fold (class_of m) in Hk.
    revert Hb. unfold configureHasuraEventHandlers. fold is_event_service.
    destruct (find_service_cases d "EventHandlerService" is_event_service) as [Hs|Hs];
      rewrite Hs; [|discriminate].
    set (per := fun '(x, members) =>
      do! logger LLog ("Registering hasura event handlers from " +:+ x) in
      mapM (register_event_handler x) members).
    unfold logger at 1. rewrite bind_value, bind_ret_l.
    destruct (mapM per _) as [es1 [e1|pc]] eqn:Hm1; [discriminate|].
    cbn [fst snd bind ret app]. intros [= <- _].
    right. apply in_or_app. left.
    change es1 with (es1, @inr Exn _ pc).1. rewrite <- Hm1.
    assert (Hok : (mapM per (Object_entries
                               (groupBy (fun x => class_name (parentClass (discoveredMethod x)))
                                        (event_methods d)))).2 = inr pc)
      by (rewrite Hm1; reflexivity).
    eapply mapM_effects_complete; [exact Hok|exact Hg|].
    destruct (mapM_success_each _ _ _ _ Hok Hg) as [y Hy].
    unfold per in *. rewrite bind_result in Hy. rewrite bind_effects.
    unfold logger in *. cbn [fst snd app] in *.
    right. eapply mapM_effects_complete; [exact Hy|exact Hmg|].
    rewrite <- Hk. exact He. }
  split; [|split].
  - intros m Hm [t Ht]. apply (Hcomplete m _ Hm).
    unfold register_event_handler, deprecation_warning. rewrite Ht.
    rewrite bool_decide_eq_true_2 by eauto. simpl.
    destruct (truthy_str (triggerName (meta m))); left; reflexivity.
  - intros m Hm [t Ht] Hn. apply (Hcomplete m _ Hm).
    unfold register_event_handler, dual_binding_warning. rewrite Ht, Hn.
    rewrite bool_decide_eq_true_2 by eauto. simpl. right. left. reflexivity.
  - intros e He Hw.
    assert (He' : In e (configureHasuraEventHandlers d).1) by (rewrite Hb; exact He).
    apply configureHasuraEventHandlers_effects in He'.
    destruct He' as [->|[(m & _ & ->)|(m & Hm & He')]]; [discriminate|discriminate|].
    apply register_event_handler_effects in He'.
    exists m. split; [exact Hm|].
    destruct He' as [[-> Ht]|[-> [Ht _]]]; (split; [exact Ht|]); [left|right]; reflexivity.
Qed.

(** ** Registration order *)

Lemma first_seen_In (ks : list string) k : In k (first_seen ks) <-> In k ks.
Proof.
  induction ks as [|a r IH]; simpl; [tauto|].
  assert (Hf : In k (filter (fun k' => k' <> a) (first_seen r))
               <-> k <> a /\ In k r).
  { rewrite <- IH, <- !list_elem_of_In.
    apply (list_elem_of_filter (fun k' => k' <> a)). }
  rewrite Hf. destruct (decide (a = k)) as [->|Hne]; [tauto|].
  split; [intros [H|[_ H]]; tauto|intros [H|H]; [tauto|right; split; congruence]].
Qed.

Lemma first_seen_NoDup (ks : list string) : NoDup (first_seen ks).
Proof.
  induction ks as [|a r IH]; simpl; [apply NoDup_nil; exact I|].
  apply NoDup_cons. split.
  - rewrite list_elem_of_filter. intros [H _]. apply H. reflexivity.
  - apply NoDup_filter. exact IH.
Qed.

Lemma first_seen_snoc (ks : list string) k :
  first_seen (ks ++ [k]) = if decide (k ∈ ks) then first_seen ks
                           else (first_seen ks ++ [k])%list.
Proof.
  induction ks as [|a r IH].
  - rewrite decide_False by (apply not_elem_of_nil). reflexivity.
  - change ((a :: r) ++ [k])%list with (a :: (r ++ [k]))%list. cbn [first_seen].
    rewrite IH. destruct (decide (k ∈ r)) as [Hr|Hr].
    + rewrite decide_True by (right; exact Hr). reflexivity.
    + rewrite filter_app. destruct (decide (k = a)) as [->|Hne].
      * rewrite decide_True by left.
        rewrite (filter_cons_False _ a []) by (intros H; apply H; reflexivity).
        rewrite filter_nil, app_nil_r. reflexivity.
      * rewrite decide_False by (rewrite elem_of_cons; intros [H|H]; [congruence|exact (Hr H)]).
        rewrite (filter_cons_True _ k []) by exact Hne. reflexivity.
Qed.

(** Filing [x] under [k] in an object that holds, for each of the distinct
    names [ks], the group [G]. *)
Lemma group_insert_tabulated {A} (G : string -> list A) ks k x :
  NoDup ks ->
  group_insert k x (map (fun c => (c, G c)) ks) =
    if decide (k ∈ ks)
    then map (fun c => (c, if decide (c = k) then (G c ++ [x])%list else G c)) ks
    else (map (fun c => (c, G c)) ks ++ [(k, [x])])%list.
Proof.
  induction ks as [|a r IH]; intros Hnd.
  - rewrite decide_False by (apply not_elem_of_nil). reflexivity.
  - cbn [map group_insert].
    apply NoDup_cons in Hnd. destruct Hnd as [Ha Hnd].
    destruct (String.eqb a k) eqn:Hak.
    + apply String.eqb_eq in Hak. subst a.
      rewrite decide_True by left.
      rewrite decide_True by reflexivity. f_equal.
      apply map_ext_in. intros c Hc.
      rewrite decide_False; [reflexivity|].
      intros ->. apply Ha, list_elem_of_In, Hc.
    + apply String.eqb_neq in Hak. rewrite (IH Hnd).
      destruct (decide (k ∈ r)) as [Hr|Hr].
      * rewrite decide_True by (right; exact Hr).
        rewrite decide_False by exact Hak. reflexivity.
      * rewrite decide_False by (rewrite elem_of_cons; intros [H|H]; [congruence|exact (Hr H)]).
        reflexivity.
Qed.

Lemma groupBy_snoc {A} (f : A -> string) xs x :
  groupBy f (xs ++ [x]) = group_insert (f x) x (groupBy f xs).
Proof. unfold groupBy. rewrite foldl_app. reflexivity. Qed.

(** What [groupBy] computes: one property per distinct key, in order of
    first occurrence, holding the elements of that key in their order. *)
Lemma groupBy_tabulated {A} (f : A -> string) (xs : list A) :
  groupBy f xs =
    map (fun c => (c, filter (fun y => f y = c) xs)) (first_seen (map f xs)).
Proof.
  induction xs as [|x r IH] using rev_ind; [reflexivity|].
  rewrite groupBy_snoc, IH, map_app. simpl map at 3.
  rewrite first_seen_snoc, (group_insert_tabulated _ _ _ _ (first_seen_NoDup _)).
  destruct (decide (f x ∈ map f r)) as [Hin|Hin].
  - rewrite decide_True by (apply list_elem_of_In, first_seen_In, list_elem_of_In; exact Hin).
    apply map_ext_in. intros c Hc. f_equal. rewrite filter_app.
    destruct (decide (c = f x)) as [->|Hne].
    + rewrite (filter_cons_True _ x []) by reflexivity. reflexivity.
    + rewrite (filter_cons_False _ x []) by congruence.
      rewrite filter_nil, app_nil_r. reflexivity.
  - rewrite decide_False
      by (rewrite list_elem_of_In, first_seen_In, <- list_elem_of_In; exact Hin).
    rewrite map_app. simpl. f_equal.
    + apply map_ext_in. intros c Hc. f_equal. rewrite filter_app.
      rewrite (filter_cons_False _ x []).
      * rewrite filter_nil, app_nil_r. reflexivity.
      * intros Hfx. apply Hin. rewrite Hfx.
        apply list_elem_of_In, first_seen_In. exact Hc.
    + f_equal. f_equal. rewrite filter_app.
      rewrite (filter_cons_True _ x []) by reflexivity.
      rewrite (filter_none (fun y => f y = f x) r); [reflexivity|].
      intros y Hy Hfy. apply Hin. rewrite <- Hfy.
      apply list_elem_of_In, in_map. exact Hy.
Qed.

Lemma insert_by_index_map {A B} (h : A -> B) n x (l : list (N * A)) :
  insert_by_index n (h x) (map (fun e => (e.1, h e.2)) l)
  = map (fun e => (e.1, h e.2)) (insert_by_index n x l).
Proof.
  induction l as [|[m y] r IH]; simpl; [reflexivity|].
  destruct (n <? m)%N; simpl; [reflexivity|]. rewrite IH. reflexivity.
Qed.

Lemma sort_by_index_map {A B} (h : A -> B) (l : list (N * A)) :
  sort_by_index (map (fun e => (e.1, h e.2)) l)
  = map (fun e => (e.1, h e.2)) (sort_by_index l).
Proof.
  induction l as [|[n x] r IH]; simpl; [reflexivity|].
  rewrite IH. apply insert_by_index_map.
Qed.

(** The enumeration order depends on the names only. *)
Lemma index_first_map {A B} (name : B -> string) (h : A -> B) (l : list A) :
  index_first name (map h l) = map h (index_first (fun x => name (h x)) l).
Proof.
  unfold index_first. rewrite map_app. f_equal.
  - replace (omap (fun x => n ← array_index (name x); Some (n, x)) (map h l))
      with (map (fun e : N * A => (e.1, h e.2))
                (omap (fun x => n ← array_index (name (h x)); Some (n, x)) l)).
    + rewrite sort_by_index_map, !map_map. reflexivity.
    + induction l as [|x r IH]; [reflexivity|]. simpl in *.
      destruct (array_index (name (h x))); simpl; [f_equal|]; exact IH.
  - induction l as [|x r IH]; simpl; [reflexivity|].
    destruct (array_index (name (h x))) as [n|] eqn:Hx.
    + rewrite !filter_cons_False by (rewrite Hx; discriminate). exact IH.
    + rewrite !filter_cons_True by exact Hx. simpl. rewrite IH. reflexivity.
Qed.

(** The groups a build goes through, one after the other, list the
    discovered methods in registration order. *)
Lemma build_order {F T} (xs : list (DiscoveredMethodWithMeta F T)) :
  members (Object_entries
             (groupBy (fun x => class_name (parentClass (discoveredMethod x))) xs))
  = registration_order xs.
Proof.
  unfold registration_order, Object_entries, members, flatten.
  rewrite groupBy_tabulated, index_first_map. simpl.
  fold (@class_of F T). change (fun x : string => x) with (@id string).
  rewrite map_map. simpl. rewrite flat_map_concat_map. reflexivity.
Qed.

Lemma flatten_map_members {A B} (h : A -> B) (gs : list (string * list A)) :
  flatten (map (fun g => map h g.2) gs) = map h (members gs).
Proof.
  unfold members, flatten. induction gs as [|[k g] r IH]; simpl; [reflexivity|].
  rewrite IH, map_app. reflexivity.
Qed.

Lemma members_perm {A} (gs gs' : list (string * list A)) :
  Permutation gs gs' -> Permutation (members gs) (members gs').
Proof.
  induction 1 as [|[k g] l l' _ IH|[k g] [k' g'] l|l l' l'' _ IH _ IH'].
  - reflexivity.
  - rewrite !members_cons, IH. reflexivity.
  - rewrite !members_cons, !app_assoc. apply Permutation_app_tail, Permutation_app_comm.
  - rewrite IH. exact IH'.
Qed.

Lemma registration_order_perm {F T} (xs : list (DiscoveredMethodWithMeta F T)) :
  Permutation (registration_order xs) xs.
Proof.
  rewrite <- build_order. unfold Object_entries.
  rewrite (members_perm _ _ (index_first_perm _ _)). apply groupBy_perm.
Qed.

Lemma filter_filter_key {A} (f : A -> string) (xs : list A) a k :
  filter (fun y => f y = k) (filter (fun y => f y = a) xs)
  = if decide (a = k) then filter (fun y => f y = k) xs else [].
Proof.
  induction xs as [|x r IH].
  - destruct (decide (a = k)); reflexivity.
  - destruct (decide (f x = a)) as [Ha|Ha].
    + rewrite (filter_cons_True (fun y => f y = a)) by exact Ha.
      destruct (decide (a = k)) as [Hk|Hk].
      * rewrite !filter_cons_True by congruence. rewrite IH. reflexivity.
      * rewrite filter_cons_False by congruence. rewrite IH. reflexivity.
    + rewrite (filter_cons_False (fun y => f y = a)) by exact Ha. rewrite IH.
      destruct (decide (a = k)) as [Hk|Hk]; [|reflexivity].
      rewrite filter_cons_False by congruence. reflexivity.
Qed.

Lemma filter_flat_map_groups {A} (f : A -> string) (xs : list A) ks k :
  NoDup ks ->
  filter (fun y => f y = k) (flat_map (fun c => filter (fun y => f y = c) xs) ks)
  = if decide (k ∈ ks) then filter (fun y => f y = k) xs else [].
Proof.
  induction ks as [|a r IH]; intros Hnd.
  - rewrite decide_False by apply not_elem_of_nil. reflexivity.
  - apply NoDup_cons in Hnd. destruct Hnd as [Ha Hnd].
    cbn [flat_map]. rewrite filter_app, filter_filter_key, (IH Hnd).
    destruct (decide (a = k)) as [->|Hne].
    + rewrite (decide_True (P := k ∈ k :: r)) by left.
      rewrite (decide_False (P := k ∈ r)) by exact Ha.
      apply app_nil_r.
    + destruct (decide (k ∈ r)) as [Hr|Hr].
      * rewrite (decide_True (P := k ∈ a :: r)) by (right; exact Hr). reflexivity.
      * rewrite (decide_False (P := k ∈ a :: r))
          by (rewrite elem_of_cons; intros [H|H]; [congruence|exact (Hr H)]).
        reflexivity.
Qed.

(** Registration keeps the discovery order of the methods of one class. *)
Lemma registration_order_stable {F T} (xs : list (DiscoveredMethodWithMeta F T)) k :
  filter (fun m => class_of m = k) (registration_order xs)
  = filter (fun m => class_of m = k) xs.
Proof.
  unfold registration_order.
  assert (Hnd : NoDup (index_first id (first_seen (map class_of xs)))).
  { rewrite index_first_perm. apply first_seen_NoDup. }
  rewrite (filter_flat_map_groups class_of xs _ k Hnd).
  destruct (decide (k ∈ index_first id (first_seen (map class_of xs)))) as [Hk|Hk];
    [reflexivity|].
  symmetry. apply filter_none. intros y Hy Hfy. apply Hk.
  apply list_elem_of_In.
  eapply Permutation_in; [symmetry; apply index_first_perm|].
  apply first_seen_In. rewrite <- Hfy. apply in_map. exact Hy.
Qed.



(** The event table of a successful build, in registration order. *)
Lemma event_table_in_registration_order d es eventHandlers :
  configureHasuraEventHandlers d = (es, inr eventHandlers) ->
  eventHandlers = map event_entry (registration_order (event_methods d)).
Proof.
  intros Hb. apply configureHasuraEventHandlers_table in Hb. rewrite Hb.
  unfold event_entries. rewrite flatten_map_members, build_order. reflexivity.
Qed.

(** The action map of a successful build: the entries are set in
    registration order. *)
Lemma action_map_in_registration_order d es actionHandlerMap :
  configureHasuraActionHandlers d = (es, inr actionHandlerMap) ->
  actionHandlerMap = new_Map (map action_entry (registration_order (action_methods d))).
Proof.
  intros Hb.
  assert (Hs : find_service d "ActionHandlerService" is_action_service = ret tt).
  { destruct (find_service_cases d "ActionHandlerService" is_action_service)
      as [Hs|Hs]; [exact Hs|exfalso].
    revert Hb. unfold configureHasuraActionHandlers. fold is_action_service.
    rewrite Hs. discriminate. }
  destruct (configureHasuraActionHandlers_total d Hs) as (es' & Hb' & _).
  rewrite Hb' in Hb. injection Hb as _ <-.
  unfold action_entries. rewrite flatten_map_members, build_order. reflexivity.
Qed.

(** ** Outcome of the builds *)

Lemma mapM_succeeds {A B} (f : A -> M B) xs :
  (forall x, In x xs -> exists y, (f x).2 = inr y) ->
  exists ys, (mapM f xs).2 = inr ys.
Proof.
  induction xs as [|x r IH]; intros Hf; simpl; [eexists; reflexivity|].
  destruct (Hf x (or_introl eq_refl)) as [y Hy].
  destruct (IH (fun z Hz => Hf z (or_intror Hz))) as [ys Hys].
  rewrite bind_result, Hy, bind_result, Hys. eexists. reflexivity.
Qed.

Lemma valid_binding_false c :
  valid_binding c = false -> table c = None /\ truthy_str (triggerName c) = false.
Proof.
  unfold valid_binding. destruct (table c) as [t|].
  - rewrite bool_decide_eq_true_2 by eauto. discriminate.
  - intros H. apply orb_false_iff in H. tauto.
Qed.

Lemma valid_binding_true c :
  valid_binding c = true -> is_Some (table c) \/ truthy_str (triggerName c) = true.
Proof.
  unfold valid_binding. intros H. apply orb_true_iff in H.
  destruct H as [H|H]; [left; apply bool_decide_eq_true in H; exact H|right; exact H].
Qed.

(** The event build succeeds exactly when its service is found and every
    discovered binding is valid. *)
Lemma configureHasuraEventHandlers_succeeds_iff d :
  (exists es eventHandlers, configureHasuraEventHandlers d = (es, inr eventHandlers))
  <-> find_service d "EventHandlerService" is_event_service = ret tt
      /\ forall m, In m (event_methods d) -> valid_binding (meta m) = true.
Proof.
  set (per := fun '(x, members) =>
    do! logger LLog ("Registering hasura event handlers from " +:+ x) in
    mapM (register_event_handler x) members).
  assert (Hshape : find_service d "EventHandlerService" is_event_service = ret tt ->
    (configureHasuraEventHandlers d).2 =
      match (mapM per (Object_entries
                         (groupBy (fun x => class_name (parentClass (discoveredMethod x)))
                                  (event_methods d)))).2 with
      | inl e => inl e
      | inr pc => inr (flatten pc)
      end).
  { intros Hs. unfold configureHasuraEventHandlers. fold is_event_service.
    rewrite Hs, bind_result. unfold logger at 1. cbn [snd].
    rewrite bind_ret_l, bind_result. fold per.
    destruct (mapM per _).2; reflexivity. }
  split.
  - intros (es & tbl & Hb).
    destruct (find_service_cases d "EventHandlerService" is_event_service) as [Hs|Hs].
    + split; [exact Hs|]. intros m Hm.
      destruct (valid_binding (meta m)) eqn:Hv; [reflexivity|exfalso].
      apply valid_binding_false in Hv. destruct Hv as [Ht Hn].
      specialize (Hshape Hs). rewrite Hb in Hshape. cbn [snd] in Hshape.
      destruct (mapM per _).2 as [e|pc] eqn:Hpc; [discriminate|].
      destruct (grouped_In (fun x => class_name (parentClass (discoveredMethod x)))
                  _ _ Hm) as (k & g & Hg & Hmg).
      destruct (mapM_success_each _ _ _ _ Hpc Hg) as [y Hy].
      unfold per in Hy. rewrite bind_result in Hy. unfold logger in Hy.
      cbn [snd] in Hy.
      destruct (mapM_success_each _ _ _ _ Hy Hmg) as [z Hz].
      rewrite (register_event_handler_invalid k m Ht Hn) in Hz. discriminate.
    + exfalso. revert Hb. unfold configureHasuraEventHandlers. fold is_event_service.
      rewrite Hs. discriminate.
  - intros [Hs Hv].
    destruct (mapM_succeeds per
                (Object_entries
                   (groupBy (fun x => class_name (parentClass (discoveredMethod x)))
                            (event_methods d)))) as [pc Hpc].
    { intros [k g] Hg. destruct (grouped_group _ _ _ _ Hg) as [_ Hmem].
      unfold per. rewrite bind_result. unfold logger. cbn [snd].
      apply mapM_succeeds. intros m Hm.
      destruct (register_event_handler_valid k m) as (es & Hes & _).
      { apply valid_binding_true, Hv, (Hmem m Hm). }
      rewrite Hes. eexists. reflexivity. }
    specialize (Hshape Hs). rewrite Hpc in Hshape.
    exists (configureHasuraEventHandlers d).1, (flatten pc).
    rewrite <- Hshape. destruct (configureHasuraEventHandlers d). reflexivity.
Qed.

(** X8: [onModuleInit] succeeds exactly when both handler services are found
    and every discovered event binding names a table or a non-empty trigger;
    the action bindings are never a reason to abort.  On success the
    closures it installs capture the event table and the action map of the
    two builds, both filled in registration order. *)
Theorem onModuleInit_succeeds_iff (d : DiscoveryService) :
  ((exists es installed, onModuleInit d = (es, inr installed))
   <-> find_service d "EventHandlerService" is_event_service = ret tt
       /\ find_service d "ActionHandlerService" is_action_service = ret tt
       /\ forall m, In m (event_methods d) -> valid_binding (meta m) = true)
  /\ forall es installed,
       onModuleInit d = (es, inr installed) ->
       installed =
         {| eventHandlers_of := map event_entry (registration_order (event_methods d));
            actionHandlerMap_of :=
              new_Map (map action_entry (registration_order (action_methods d))) |}.
Proof.
  assert (Hinv : forall es installed, onModuleInit d = (es, inr installed) ->
    exists es1 es2,
      configureHasuraEventHandlers d = (es1, inr (eventHandlers_of installed))
      /\ configureHasuraActionHandlers d = (es2, inr (actionHandlerMap_of installed))).
  { intros es installed. unfold onModuleInit, logger. rewrite bind_value.
    destruct (configureHasuraEventHandlers d) as [es1 [e|evs]]; [discriminate|].
    rewrite bind_value.
    destruct (configureHasuraActionHandlers d) as [es2 [e|acts]]; [discriminate|].
    cbn. intros [= _ <-]. eexists _, _. split; reflexivity. }
  split; [split|].
  - intros (es & installed & Hi). destruct (Hinv _ _ Hi) as (es1 & es2 & He & Ha).
    destruct (proj1 (configureHasuraEventHandlers_succeeds_iff d)) as [Hs Hv]; [eauto|].
    split; [exact Hs|]. split; [|exact Hv].
    destruct (find_service_cases d "ActionHandlerService" is_action_service)
      as [Hs'|Hs']; [exact Hs'|exfalso].
    revert Ha. unfold configureHasuraActionHandlers. fold is_action_service.
    rewrite Hs'. discriminate.
  - intros (Hs & Hs' & Hv).
    destruct (proj2 (configureHasuraEventHandlers_succeeds_iff d)) as (es1 & evs & He);
      [split; assumption|].
    destruct (configureHasuraActionHandlers_total d Hs') as (es2 & Ha & _).
    unfold onModuleInit, logger. rewrite bind_value, He, bind_value, Ha.
    eexists _, _. reflexivity.
  - intros es installed Hi. destruct (Hinv _ _ Hi) as (es1 & es2 & He & Ha).
    apply event_table_in_registration_order in He.
    apply action_map_in_registration_order in Ha.
    destruct installed as [evs acts]. simpl in *. subst. reflexivity.
Qed.

(** X10: a successful event build registers every discovered binding exactly
    once: the table is the image of a rearrangement of the discovered
    methods, in which the methods of one class keep their discovery order. *)
Theorem event_build_keeps_every_binding (d : DiscoveryService) (es : list Effect)
    (eventHandlers : list EventHandlerEntry) :
  configureHasuraEventHandlers d = (es, inr eventHandlers) ->
  exists ms,
    eventHandlers = map event_entry ms
    /\ Permutation ms (event_methods d)
    /\ length eventHandlers = length (event_methods d)
    /\ forall k, filter (fun m => class_of m = k) ms
                 = filter (fun m => class_of m = k) (event_methods d).
Proof.
  intros Hb. exists (registration_order (event_methods d)).
  apply event_table_in_registration_order in Hb.
  split; [exact Hb|]. split; [apply registration_order_perm|]. split.
  - rewrite Hb, length_map. apply Permutation_length, registration_order_perm.
  - intros k. apply registration_order_stable.
Qed.

(** ** The action table *)

Lemma new_Map_lookup_In {V} (entries : list (string * V)) n v :
  new_Map entries !! n = Some v -> In (n, v) entries.
Proof.
  induction entries as [|[k w] r IH] using rev_ind.
  - unfold new_Map. simpl. rewrite lookup_empty. discriminate.
  - rewrite new_Map_snoc. destruct (decide (k = n)) as [->|Hne].
    + rewrite lookup_insert_eq. intros [= ->]. apply in_or_app. right. left. reflexivity.
    + rewrite lookup_insert_ne by exact Hne. intros H.
      apply in_or_app. left. apply IH. exact H.
Qed.

Lemma new_Map_lookup_None {V} (entries : list (string * V)) n :
  new_Map entries !! n = None <-> forall v, ~ In (n, v) entries.
Proof.
  induction entries as [|[k w] r IH] using rev_ind.
  - unfold new_Map. simpl. rewrite lookup_empty. split; [intros _ v []|reflexivity].
  - rewrite new_Map_snoc. destruct (decide (k = n)) as [->|Hne].
    + rewrite lookup_insert_eq. split; [discriminate|].
      intros H. exfalso. apply (H w). apply in_or_app. right. left. reflexivity.
    + rewrite lookup_insert_ne by exact Hne. rewrite IH. split.
      * intros H v Hv. apply in_app_or in Hv. destruct Hv as [Hv|[[= ? ?]|[]]].
        -- exact (H v Hv).
        -- congruence.
      * intros H v Hv. apply (H v). apply in_or_app. left. exact Hv.
Qed.

Lemma action_entries_In d n h :
  In (n, h) (action_entries d) ->
  exists m, In m (action_methods d) /\ action_entry m = (n, h).
Proof.
  unfold action_entries. rewrite flatten_map_members, build_order. intros H.
  apply in_map_iff in H. destruct H as (m & Hm & Hin).
  exists m. split; [|exact Hm].
  eapply Permutation_in; [apply registration_order_perm|exact Hin].
Qed.

Lemma action_entries_complete d m :
  In m (action_methods d) -> In (action_entry m) (action_entries d).
Proof.
  intros Hm. unfold action_entries. rewrite flatten_map_members, build_order.
  apply in_map.
  eapply Permutation_in; [symmetry; apply registration_order_perm|exact Hm].
Qed.

(** X12: after the action build, an action is dispatched to a handler exactly
    when some discovered method declares its name: a declared name invokes
    one of the methods declared under it and nothing else, an undeclared
    name is rejected with a [BadRequestException] and invokes nothing. *)
Theorem action_dispatch_follows_discovery (d : DiscoveryService)
    (es : list Effect) (actionHandlerMap : gmap string ActionHandler)
    (action : HasuraAction) (headers : Headers) :
  configureHasuraActionHandlers d = (es, inr actionHandlerMap) ->
  ((exists m, In m (action_methods d) /\ meta m = action_name action) ->
     exists m, In m (action_methods d) /\ meta m = action_name action
       /\ handleAction actionHandlerMap action headers =
            ([InvokedAction (class_instance (parentClass (discoveredMethod m)))
                            (methodName (discoveredMethod m))
                            (input action) action headers],
             handler (discoveredMethod m) (input action) action headers))
  /\ ((forall m, In m (action_methods d) -> meta m <> action_name action) ->
        handleAction actionHandlerMap action headers =
          ([Logged LError ("Handler not found for action: " +:+ action_name action)],
           Rejects (BadRequestException
                      ("Handler not found for action: " +:+ action_name action)))).
Proof.
  intros Hb.
  assert (Hs : find_service d "ActionHandlerService" is_action_service = ret tt).
  { destruct (find_service_cases d "ActionHandlerService" is_action_service)
      as [Hs|Hs]; [exact Hs|exfalso].
    revert Hb. unfold configureHasuraActionHandlers. fold is_action_service.
    rewrite Hs. discriminate. }
  destruct (configureHasuraActionHandlers_total d Hs) as (es' & Hb' & _).
  rewrite Hb' in Hb. injection Hb as _ <-.
  unfold handleAction. split.
  - intros (m0 & Hm0 & Hn0).
    destruct (new_Map (action_entries d) !! action_name action) as [h|] eqn:Hl.
    + apply new_Map_lookup_In, action_entries_In in Hl.
      destruct Hl as (m & Hm & Hentry). injection Hentry as Hn <-.
      exists m. repeat split; assumption.
    + exfalso. rewrite new_Map_lookup_None in Hl.
      apply (Hl (action_entry m0).2). rewrite <- Hn0.
      apply (action_entries_complete d m0 Hm0).
  - intros Hnone.
    destruct (new_Map (action_entries d) !! action_name action) as [h|] eqn:Hl;
      [exfalso|reflexivity].
    apply new_Map_lookup_In, action_entries_In in Hl.
    destruct Hl as (m & Hm & Hentry). injection Hentry as Hn _.
    exact (Hnone m Hm Hn).
Qed.

(** X13: each build looks at the first provider carrying its service's name
    and nothing else.  When there is none, or the first one is not an
    instance of the service, the build throws the "Could not find Hasura
    Event Handler Service." error (the action build uses the same message)
    right after its opening log line, before any binding is looked at. *)
Theorem build_aborts_without_service (d : DiscoveryService) :
  ((forall q rest,
      providers d (fun x => String.eqb (prov_name x) "EventHandlerService") = q :: rest ->
      prov_instance q <> InstEventHandlerService) ->
   configureHasuraEventHandlers d =
     ([Logged LLog "Connecting Hasura Events"],
      inl (JsError "Could not find Hasura Event Handler Service.")))
  /\ ((forall q rest,
        providers d (fun x => String.eqb (prov_name x) "ActionHandlerService") = q :: rest ->
        prov_instance q <> InstActionHandlerService) ->
      configureHasuraActionHandlers d =
        ([Logged LLog "Connecting Hasura Action Handlers"],
         inl (JsError "Could not find Hasura Event Handler Service."))).
Proof.
  split; intros Hno.
  - unfold configureHasuraEventHandlers, find_service.
    destruct (providers d _) as [|q rest] eqn:Hp; [reflexivity|].
    simpl. specialize (Hno q rest eq_refl).
    destruct (prov_instance q); try reflexivity. congruence.
  - unfold configureHasuraActionHandlers, find_service.
    destruct (providers d _) as [|q rest] eqn:Hp; [reflexivity|].
    simpl. specialize (Hno q rest eq_refl).
    destruct (prov_instance q); try reflexivity. congruence.
Qed.

(** ** More on the dispatch of events *)

(** A binding an event is routed to is invoked with the event, and its
    promise is among those handed to [Promise.all]. *)
Lemma routed_is_invoked config eventHandlers evt keys x :
  event_keys evt = Some keys ->
  In x (matching eventHandlers keys) ->
  In (invocation_of evt x) (handleEvent config eventHandlers evt).1
  /\ exists ps, (handleEvent config eventHandlers evt).2 = inr ps
                /\ In (promise_of evt x) ps.
Proof.
  intros Hk Hm.
  assert (Hne : matching eventHandlers keys <> [])
    by (intros Hnil; rewrite Hnil in Hm; destruct Hm).
  rewrite (handleEvent_matched config _ _ _ Hk Hne). simpl. split.
  - apply in_or_app. right. apply in_map. exact Hm.
  - eexists. split; [reflexivity|]. apply in_map. exact Hm.
Qed.

(** X1: whatever the payload, the handlers [handleEvent] invokes are a
    sublist of the registered bindings, in table order, each invoked with
    the payload itself: a binding is invoked at most once per registration
    even when both candidate keys of the event equal its key.  When
    [handleEvent] returns, that sublist is not empty and the promises handed
    to [Promise.all] are those of its handlers, in the same order; when it
    throws, nothing has been invoked. *)
Theorem handleEvent_invokes_sublist (config : HasuraModuleConfig)
    (eventHandlers : list EventHandlerEntry) (evt : JsObj) :
  exists hs,
    hs `sublist_of` eventHandlers
    /\ invocations (handleEvent config eventHandlers evt).1 = map (invocation_of evt) hs
    /\ match (handleEvent config eventHandlers evt).2 with
       | inr ps => hs <> [] /\ ps = map (promise_of evt) hs
       | inl _ => hs = []
       end.
Proof.
  destruct (event_keys evt) as [keys|] eqn:Hk.
  - destruct (matching eventHandlers keys) as [|x r] eqn:Hm.
    + exists []. rewrite (handleEvent_unmatched _ _ _ _ Hk Hm).
      split; [apply sublist_nil_l|]. split; [|reflexivity].
      cbn [fst]. rewrite invocations_app, invocations_event_log. reflexivity.
    + assert (Hne : matching eventHandlers keys <> []) by (rewrite Hm; discriminate).
      exists (matching eventHandlers keys).
      rewrite (handleEvent_matched _ _ _ _ Hk Hne). cbn [fst snd].
      split; [apply sublist_filter|]. split; [|split; [exact Hne|reflexivity]].
      rewrite invocations_app, invocations_event_log, invocations_map_invocation_of.
      reflexivity.
  - exists []. rewrite (handleEvent_unrecognised _ _ _ Hk).
    split; [apply sublist_nil_l|]. split; reflexivity.
Qed.


(** X3: a scheduled event is routed by its [name] alone, compared without
    conversion: a registered binding receives it exactly when the binding's
    key is that name, whether the key was declared as a trigger name or
    derived from a table. *)
Theorem scheduled_event_routed_by_name (config : HasuraModuleConfig)
    (eventHandlers : list EventHandlerEntry) (evt : JsObj) (x : EventHandlerEntry) :
  table_event_shape evt = false ->
  scheduled_event_shape evt = true ->
  In x eventHandlers ->
  event_keys evt = Some [get evt "name"]
  /\ (In x (matching eventHandlers [get evt "name"]) <-> get evt "name" = VStr (key x))
  /\ (get evt "name" = VStr (key x) ->
      In (invocation_of evt x) (handleEvent config eventHandlers evt).1).
Proof.
  intros Ht Hs Hin.
  assert (Hk : event_keys evt = Some [get evt "name"]).
  { unfold event_keys.
    rewrite isHasuraEvent_shape, isHasuraScheduledEventPayload_shape, Ht, Hs.
    reflexivity. }
  assert (Hiff : In x (matching eventHandlers [get evt "name"])
                 <-> get evt "name" = VStr (key x)).
  { rewrite matching_spec, includes_spec. simpl. split.
    - intros [_ [H|[]]]. exact H.
    - intros H. split; [exact Hin|left; exact H]. }
  split; [exact Hk|]. split; [exact Hiff|].
  intros Hn. apply (routed_is_invoked config eventHandlers evt _ x Hk), Hiff, Hn.
Qed.



(** ** Completion of a dispatch *)

(** A schedule that contains a rejecting input splits at the first one. *)
Lemma first_rejection_split (ps : list Outcome) sched :
  (exists i o, In i sched /\ ps !! i = Some o /\ rejects o = true) ->
  exists before i e after,
    sched = (before ++ i :: after)%list
    /\ ps !! i = Some (Rejects e)
    /\ forall j o, In j before -> ps !! j = Some o -> rejects o = false.
Proof.
  induction sched as [|j r IH]; intros (i & o & Hin & Ho & Hr); [destruct Hin|].
  destruct (ps !! j) as [oj|] eqn:Hj.
  - destruct oj as [v|e|] eqn:Hoj.
    + destruct IH as (before & i' & e' & after & -> & Hi' & Hb).
      { destruct Hin as [->|Hin]; [rewrite Hj in Ho; injection Ho as <-; discriminate|].
        eauto. }
      exists (j :: before), i', e', after. split; [reflexivity|]. split; [exact Hi'|].
      intros k ok [<-|Hk] Hok; [rewrite Hj in Hok; injection Hok as <-; reflexivity|].
      eapply Hb; eassumption.
    + exists [], j, e, r. split; [reflexivity|]. split; [exact Hj|]. intros k ok [].
    + destruct IH as (before & i' & e' & after & -> & Hi' & Hb).
      { destruct Hin as [->|Hin]; [rewrite Hj in Ho; injection Ho as <-; discriminate|].
        eauto. }
      exists (j :: before), i', e', after. split; [reflexivity|]. split; [exact Hi'|].
      intros k ok [<-|Hk] Hok; [rewrite Hj in Hok; injection Hok as <-; reflexivity|].
      eapply Hb; eassumption.
  - destruct IH as (before & i' & e' & after & -> & Hi' & Hb).
    { destruct Hin as [->|Hin]; [rewrite Hj in Ho; discriminate|]. eauto. }
    exists (j :: before), i', e', after. split; [reflexivity|]. split; [exact Hi'|].
    intros k ok [<-|Hk] Hok; [rewrite Hj in Hok; discriminate|].
    eapply Hb; eassumption.
Qed.

Lemma valid_schedule_prefix (ps : list Outcome) s1 s2 :
  valid_schedule ps (s1 ++ s2) -> valid_schedule ps s1.
Proof.
  intros [Hnd Hv]. apply NoDup_app in Hnd. destruct Hnd as (Hnd & _ & _).
  split; [exact Hnd|]. intros i Hi. apply Hv, in_or_app. left. exact Hi.
Qed.

(** A schedule in which some input rejects leaves [Promise.all] rejected. *)
Lemma Promise_all_rejected_if_any (ps : list Outcome) sched :
  valid_schedule ps sched ->
  (exists i o, In i sched /\ ps !! i = Some o /\ rejects o = true) ->
  exists e, Promise_all ps sched = Rejected e.
Proof.
  intros Hv Hex.
  destruct (first_rejection_split ps sched Hex) as (before & i & e & after & -> & Hi & Hb).
  exists e.
  apply (Promise_all_first_rejection ps before i e after); [|exact Hb|exact Hi].
  apply (valid_schedule_prefix ps (before ++ [i]) after).
  rewrite <- app_assoc. exact Hv.
Qed.

(** X6: a dispatch is fulfilled only when every matched handler has
    fulfilled: if the promise [handleEvent] returned is fulfilled once the
    handlers listed in a schedule have settled, then every matched handler
    is in that schedule, each of them has fulfilled, and the value is the
    array of their results in the order of the matched bindings. *)
Theorem dispatch_fulfilled_means_all_fulfilled (config : HasuraModuleConfig)
    (eventHandlers : list EventHandlerEntry) (evt : JsObj)
    (es : list Effect) (ps : list Outcome) (sched : list nat) (v : JsVal) :
  handleEvent config eventHandlers evt = (es, inr ps) ->
  valid_schedule ps sched ->
  Promise_all ps sched = Fulfilled v ->
  (forall i, i < length ps -> In i sched)
  /\ exists vs, ps = map Fulfils vs /\ v = VArr vs /\ length vs = length ps.
Proof.
  intros Hd Hv Hf.
  destruct (handleEvent_returns _ _ _ _ _ Hd) as (keys & _ & Hne & _ & Hps).
  assert (Hpos : 0 < length ps).
  { rewrite Hps, length_map. destruct (matching eventHandlers keys); [congruence|simpl; lia]. }
  assert (Hnr : forall i o, In i sched -> ps !! i = Some o -> rejects o = false).
  { intros i o Hi Ho. destruct (rejects o) eqn:Hr; [exfalso|reflexivity].
    destruct (Promise_all_rejected_if_any ps sched Hv) as [e He]; [eauto|].
    rewrite He in Hf. discriminate. }
  destruct (all_run_fulfilments ps sched Hv Hnr) as (_ & Hlen & Hvals & Hres).
  unfold Promise_all in Hf. rewrite (Hres Hpos) in Hf.
  destruct (length sched <? length ps)%nat eqn:Hlt; [discriminate|].
  apply Nat.ltb_ge in Hlt. injection Hf as <-.
  destruct Hv as [Hnd Hval].
  assert (Hbound : forall i, In i sched -> i < length ps).
  { intros i Hi. destruct (Hval i Hi) as (o & Ho & _). eapply lookup_lt_Some. exact Ho. }
  assert (Hall : forall i, i < length ps -> In i sched).
  { intros i Hi.
    assert (Hincl : incl (seq 0 (length ps)) sched).
    { apply NoDup_length_incl.
      - apply NoDup_ListNoDup. exact Hnd.
      - rewrite length_seq. exact Hlt.
      - intros j Hj. apply in_seq. specialize (Hbound j Hj). lia. }
    apply Hincl, in_seq. lia. }
  split; [exact Hall|].
  exists (values (all_run ps sched)). split; [|split; [reflexivity|exact Hlen]].
  apply list_eq. intros i. rewrite list_lookup_fmap.
  destruct (ps !! i) as [o|] eqn:Ho.
  - assert (Hi : In i sched) by (apply Hall; eapply lookup_lt_Some; exact Ho).
    destruct (Hval i Hi) as (o' & Ho' & Hset). rewrite Ho in Ho'. injection Ho' as <-.
    specialize (Hnr i o Hi Ho).
    destruct o as [w|e|]; [|discriminate|discriminate].
    rewrite (Hvals i w Hi Ho). reflexivity.
  - apply lookup_ge_None in Ho.
    rewrite (proj2 (lookup_ge_None _ _)) by lia. reflexivity.
Qed.

(** X7: there is no timeout.  If one matched handler never settles and none
    of the others rejects, the promise [handleEvent] returned stays pending
    however the other handlers complete. *)
Theorem dispatch_pends_on_unsettled_handler (config : HasuraModuleConfig)
    (eventHandlers : list EventHandlerEntry) (evt : JsObj)
    (es : list Effect) (ps : list Outcome) (i : nat) (sched : list nat) :
  handleEvent config eventHandlers evt = (es, inr ps) ->
  ps !! i = Some NeverSettles ->
  (forall j o, ps !! j = Some o -> rejects o = false) ->
  valid_schedule ps sched ->
  Promise_all ps sched = Pending.
Proof.
  intros _ Hi Hnr Hv.
  assert (Hlt : i < length ps) by (eapply lookup_lt_Some; exact Hi).
  destruct (all_run_fulfilments ps sched Hv) as (_ & _ & _ & Hres).
  { intros j o _. apply Hnr. }
  unfold Promise_all. rewrite Hres by lia.
  destruct (length sched <? length ps)%nat eqn:Hl; [reflexivity|exfalso].
  apply Nat.ltb_ge in Hl. destruct Hv as [Hnd Hval].
  assert (Hin : In i sched).
  { assert (Hincl : incl (seq 0 (length ps)) sched).
    { apply NoDup_length_incl.
      - apply NoDup_ListNoDup. exact Hnd.
      - rewrite length_seq. exact Hl.
      - intros j Hj. apply in_seq. destruct (Hval j Hj) as (o & Ho & _).
        apply lookup_lt_Some in Ho. lia. }
    apply Hincl, in_seq. lia. }
  destruct (Hval i Hin) as (o & Ho & Hset). rewrite Hi in Ho. injection Ho as <-.
  discriminate.
Qed.

(** ** The controller path *)

(** X14: the path filed for [HasuraRouterController] is never empty: it is the
    configured [controllerPrefix] when that is a non-empty string and
    ["hasura"] when it is absent or empty; the metadata of every other key
    or target is left as it was, and a later run of the factory replaces the
    path of an earlier one. *)
Theorem controller_path_defaults_to_hasura (controllerPrefix : option string)
    (md : Metadata) :
  (exists p, controller_hack controllerPrefix md
               !! (PATH_METADATA, "HasuraRouterController") = Some p
             /\ p <> ""
             /\ (forall s, controllerPrefix = Some s -> s <> "" -> p = s)
             /\ (controllerPrefix = None \/ controllerPrefix = Some "" -> p = "hasura"))
  /\ (forall k, k <> (PATH_METADATA, "HasuraRouterController") ->
        controller_hack controllerPrefix md !! k = md !! k)
  /\ (forall earlier,
        controller_hack controllerPrefix (controller_hack earlier md)
        = controller_hack controllerPrefix md).
Proof.
  unfold controller_hack, defineMetadata. split; [|split].
  - eexists. split; [apply lookup_insert_eq|].
    destruct controllerPrefix as [s|]; simpl.
    + destruct (String.eqb s "") eqn:Hs; simpl.
      * apply String.eqb_eq in Hs. subst.
        split; [discriminate|]. split; [intros s [= <-] H; congruence|reflexivity].
      * apply String.eqb_neq in Hs.
        split; [exact Hs|]. split; [intros s' [= <-] _; reflexivity|].
        intros [H|[= H]]; [discriminate|congruence].
    + split; [discriminate|]. split; [discriminate|reflexivity].
  - intros k Hk. apply lookup_insert_ne. congruence.
  - intros earlier. apply insert_insert_eq.
Qed.

(** ** The further properties on the sample application *)


Lemma scheduled_event_routed_by_name_witness :
  In (invocation_of (scheduled_event "7" "nightly")
        (entry_of "nightly" "CronService" "run" (fulfilling "ran")))
     (handleEvent quiet cron_table (scheduled_event "7" "nightly")).1.
Proof.
  apply (proj2 (proj2 (scheduled_event_routed_by_name quiet cron_table
           (scheduled_event "7" "nightly")
           (entry_of "nightly" "CronService" "run" (fulfilling "ran"))
           eq_refl eq_refl (or_introl eq_refl)))).
  vm_compute. reflexivity.
Defined.



Lemma dispatch_fulfilled_means_all_fulfilled_witness :
  (forall i, i < 2 -> In i [1; 0])
  /\ exists vs,
       [Fulfils (VStr "mailed"); Fulfils (VStr "recorded")] = map Fulfils vs
       /\ VArr [VStr "mailed"; VStr "recorded"] = VArr vs
       /\ length vs = 2.
Proof.
  apply (dispatch_fulfilled_means_all_fulfilled quiet both_fulfil_table
           (table_event "1" "user_created" "public" "user")
           (handleEvent quiet both_fulfil_table
              (table_event "1" "user_created" "public" "user")).1
           [Fulfils (VStr "mailed"); Fulfils (VStr "recorded")] [1; 0]
           (VArr [VStr "mailed"; VStr "recorded"])).
  - vm_compute. reflexivity.
  - split.
    + apply NoDup_ListNoDup. constructor; [simpl; lia|].
      constructor; [simpl; tauto|]. constructor.
    + intros i [<-|[<-|[]]]; eexists; split; reflexivity.
  - reflexivity.
Defined.

Lemma dispatch_pends_on_unsettled_handler_witness :
  Promise_all [Fulfils (VStr "mailed"); NeverSettles] [0] = Pending.
Proof.
  apply (dispatch_pends_on_unsettled_handler quiet one_hangs_table
           (table_event "1" "user_created" "public" "user")
           (handleEvent quiet one_hangs_table
              (table_event "1" "user_created" "public" "user")).1
           [Fulfils (VStr "mailed"); NeverSettles] 1 [0]).
  - vm_compute. reflexivity.
  - reflexivity.
  - intros [|[|j]] o; simpl; intros [= <-]; reflexivity.
  - split; [apply NoDup_singleton|].
    intros i [<-|[]]. eexists. split; reflexivity.
Defined.

Lemma onModuleInit_succeeds_iff_witness :
  exists es installed, onModuleInit interleaved_discovery = (es, inr installed).
Proof.
  apply (proj2 (proj1 (onModuleInit_succeeds_iff interleaved_discovery))).
  split; [reflexivity|]. split; [reflexivity|].
  intros m [<-|[<-|[<-|[]]]]; reflexivity.
Defined.

Lemma event_build_keeps_every_binding_witness :
  exists ms,
    event_entries interleaved_discovery = map event_entry ms
    /\ Permutation ms (event_methods interleaved_discovery)
    /\ length (event_entries interleaved_discovery)
       = length (event_methods interleaved_discovery)
    /\ forall k, filter (fun m => class_of m = k) ms
                 = filter (fun m => class_of m = k) (event_methods interleaved_discovery).
Proof.
  apply (event_build_keeps_every_binding interleaved_discovery
           (configureHasuraEventHandlers interleaved_discovery).1
           (event_entries interleaved_discovery)).
  vm_compute. reflexivity.
Defined.

Lemma event_build_warnings_witness :
  In (deprecation_warning "onUser") (configureHasuraEventHandlers dual_discovery).1
  /\ In (dual_binding_warning "onUser") (configureHasuraEventHandlers dual_discovery).1.
Proof.
  destruct (event_build_warnings dual_discovery
              (configureHasuraEventHandlers dual_discovery).1
              (event_entries dual_discovery)) as (Hd & Hb & _).
  - vm_compute. reflexivity.
  - split.
    + apply (Hd (event_method "UserService" "onUser" (fulfilling "done")
                   (by_both "user_created" (Some "public") "user")));
        [left; reflexivity|eexists; reflexivity].
    + apply (Hb (event_method "UserService" "onUser" (fulfilling "done")
                   (by_both "user_created" (Some "public") "user")));
        [left; reflexivity|eexists; reflexivity|reflexivity].
Defined.

Lemma action_dispatch_follows_discovery_witness :
  handleAction (new_Map (action_entries duplicate_actions))
    {| action_name := "deleteUser"; input := VNull; session_variables := VNull |} ∅
  = ([Logged LError "Handler not found for action: deleteUser"],
     Rejects (BadRequestException "Handler not found for action: deleteUser")).
Proof.
  apply (proj2 (action_dispatch_follows_discovery duplicate_actions
           (configureHasuraActionHandlers duplicate_actions).1
           (new_Map (action_entries duplicate_actions))
           {| action_name := "deleteUser"; input := VNull; session_variables := VNull |}
           ∅ ltac:(vm_compute; reflexivity))).
  intros m [<-|[<-|[]]]; discriminate.
Defined.

Lemma build_aborts_without_service_witness :
  configureHasuraEventHandlers no_services
  = ([Logged LLog "Connecting Hasura Events"],
     inl (JsError "Could not find Hasura Event Handler Service."))
  /\ configureHasuraActionHandlers no_services
     = ([Logged LLog "Connecting Hasura Action Handlers"],
        inl (JsError "Could not find Hasura Event Handler Service.")).
Proof.
  split.
  - apply (proj1 (build_aborts_without_service no_services)).
    intros q rest H. discriminate H.
  - apply (proj2 (build_aborts_without_service no_services)).
    intros q rest H. discriminate H.
Defined.

Lemma controller_path_defaults_to_hasura_witness :
  controller_hack (Some "") ∅ !! (PATH_METADATA, "HasuraRouterController")
  = Some "hasura".
Proof.
  destruct (controller_path_defaults_to_hasura (Some "") ∅)
    as [(p & Hp & _ & _ & Hd) _].
  rewrite Hp. f_equal. apply Hd. right. reflexivity.
Defined.

(** ** Fan-out and duplicates in registration order *)






(** Class names that are array indices are registered first, in ascending
    order, whatever their place in the discovery. *)
Example registration_puts_index_names_first :
  map (fun m => class_of m)
      (registration_order
         [action_method "UserService" "a" (fun _ _ _ => NeverSettles) "x";
          action_method "10" "b" (fun _ _ _ => NeverSettles) "x";
          action_method "2" "c" (fun _ _ _ => NeverSettles) "x";
          action_method "01" "d" (fun _ _ _ => NeverSettles) "x"])
  = ["2"; "10"; "UserService"; "01"].
Proof. vm_compute. reflexivity. Qed.
